(** * Statement-text interpretation engine (TransactionHistoryProcessor)

    A shallow embedding of the [TransactionHistoryProcessor] class of
    [backend/server.js] and of the JavaScript built-ins it relies on
    (strings, regular expressions, numbers, dates, [Array.prototype.sort]),
    followed by the properties of the extraction pipeline.

    Strings are sequences of 8-bit code units; the case mappings and the
    white-space class are those of the ASCII range. *)

From Stdlib Require Import Ascii String List ZArith Lia Bool Arith Sorted Permutation.
From Stdlib Require Import Floats.SpecFloat.
Import ListNotations.

Set Implicit Arguments.

(** ** JavaScript strings *)

Module JsString.

Definition str := list ascii.

(** A string literal of the source. *)
Definition lit (s : string) : str := list_ascii_of_string s.

Definition is_digit (c : ascii) : bool :=
  let n := nat_of_ascii c in (48 <=? n) && (n <=? 57).

(** White space and line terminators below code unit 128 (the set shared
    by [\s] and [String.prototype.trim]). *)
Definition is_space (c : ascii) : bool :=
  let n := nat_of_ascii c in ((9 <=? n) && (n <=? 13)) || (n =? 32).

Definition upper_char (c : ascii) : ascii :=
  let n := nat_of_ascii c in
  if (97 <=? n) && (n <=? 122) then ascii_of_nat (n - 32) else c.

Definition lower_char (c : ascii) : ascii :=
  let n := nat_of_ascii c in
  if (65 <=? n) && (n <=? 90) then ascii_of_nat (n + 32) else c.

Definition toUpperCase (s : str) : str := map upper_char s.
Definition toLowerCase (s : str) : str := map lower_char s.

Fixpoint str_eqb (a b : str) : bool :=
  match a, b with
  | [], [] => true
  | x :: a', y :: b' => Ascii.eqb x y && str_eqb a' b'
  | _, _ => false
  end.

Fixpoint starts_with (p s : str) : bool :=
  match p, s with
  | [], _ => true
  | x :: p', y :: s' => Ascii.eqb x y && starts_with p' s'
  | _ :: _, [] => false
  end.

(** [s.indexOf(p)]; [None] stands for -1. *)
Fixpoint indexOf_from (i : nat) (s p : str) : option nat :=
  if starts_with p s then Some i
  else match s with
       | [] => None
       | _ :: s' => indexOf_from (S i) s' p
       end.

Definition indexOf (s p : str) : option nat := indexOf_from 0 s p.

Definition includes (s p : str) : bool :=
  match indexOf s p with Some _ => true | None => false end.

(** [s.lastIndexOf(p)]: the greatest index at which [p] occurs. *)
Fixpoint lastIndexOf_from (i : nat) (s p : str) : option nat :=
  let later := match s with
               | [] => None
               | _ :: s' => lastIndexOf_from (S i) s' p
               end in
  match later with
  | Some j => Some j
  | None => if starts_with p s then Some i else None
  end.

Definition lastIndexOf (s p : str) : option nat := lastIndexOf_from 0 s p.

(** [s.substring(a, b)] for [a <= b]. *)
Definition substring (s : str) (a b : nat) : str := firstn (b - a) (skipn a s).

Fixpoint trimStart (s : str) : str :=
  match s with
  | c :: s' => if is_space c then trimStart s' else s
  | [] => []
  end.

Definition trimEnd (s : str) : str := rev (trimStart (rev s)).

Definition trim (s : str) : str := trimEnd (trimStart s).

(** [s.split(c)] for a one-character separator: never an empty array. *)
Fixpoint split (c : ascii) (s : str) : list str :=
  match s with
  | [] => [[]]
  | x :: s' =>
      if Ascii.eqb x c then [] :: split c s'
      else match split c s' with
           | w :: ws => (x :: w) :: ws
           | [] => [[x]]
           end
  end.

(** [s.replace(p, r)] with a string pattern: the first occurrence only. *)
Definition replace_str (s p r : str) : str :=
  match indexOf s p with
  | Some i => firstn i s ++ r ++ skipn (i + length p) s
  | None => s
  end.

(** [s.charAt(0).toUpperCase() + s.slice(1).toLowerCase()] for non-empty [s]. *)
Definition capitalize (s : str) : str :=
  toUpperCase (substring s 0 1) ++ toLowerCase (skipn 1 s).

End JsString.
Import JsString.

(** ** Regular expressions

    The fragment of the pattern language the processor uses: literals,
    character classes, greedy quantifiers over a class, sequence,
    alternation, one capturing group and the start anchor.  Matching is the
    backtracking search of the language definition, written in
    continuation-passing style. *)

Module JsRegExp.

Inductive regex : Type :=
| Chr (c : ascii)
| Cls (p : ascii -> bool)
| Rep (p : ascii -> bool) (lo : nat) (hi : option nat)
| Cat (r1 r2 : regex)
| Alt (r1 r2 : regex)
| Grp (r : regex)
| Bol.

Definition plus p := Rep p 1 None.
Definition star p := Rep p 0 None.
Definition opt p := Rep p 0 (Some 1).
Definition one (c : ascii) : ascii -> bool := Ascii.eqb c.

Fixpoint word (s : str) : regex :=
  match s with
  | [] => Rep (fun _ => false) 0 (Some 0)
  | [c] => Chr c
  | c :: s' => Cat (Chr c) (word s')
  end.

Fixpoint seq (rs : list regex) : regex :=
  match rs with
  | [] => Rep (fun _ => false) 0 (Some 0)
  | [r] => r
  | r :: rs' => Cat r (seq rs')
  end.

Definition capture := option (nat * nat).

Section Matcher.
Variable R : Type.
(** The [i] flag. *)
Variable ignoreCase : bool.

Definition canon (c : ascii) : ascii := if ignoreCase then upper_char c else c.

(** Greedy repetition of a class: take one more character when allowed,
    fall back to stopping here when the continuation fails. *)
Fixpoint rep (p : ascii -> bool) (lo : nat) (hi : option nat) (i : nat) (s : str)
         (k : nat -> str -> option R) {struct s} : option R :=
  let stop := match lo with O => k i s | S _ => None end in
  match hi with
  | Some O => stop
  | _ =>
      match s with
      | c :: s' =>
          if p c then
            match rep p (pred lo) (option_map pred hi) (S i) s' k with
            | Some r => Some r
            | None => stop
            end
          else stop
      | [] => stop
      end
  end.

Fixpoint rmatch (r : regex) (i : nat) (s : str) (cap : capture)
         (k : nat -> str -> capture -> option R) {struct r} : option R :=
  match r with
  | Chr c =>
      match s with
      | x :: s' => if Ascii.eqb (canon x) (canon c) then k (S i) s' cap else None
      | [] => None
      end
  | Cls p =>
      match s with
      | x :: s' => if p x then k (S i) s' cap else None
      | [] => None
      end
  | Rep p lo hi => rep p lo hi i s (fun j s' => k j s' cap)
  | Cat r1 r2 => rmatch r1 i s cap (fun j s' cap' => rmatch r2 j s' cap' k)
  | Alt r1 r2 =>
      match rmatch r1 i s cap k with
      | Some x => Some x
      | None => rmatch r2 i s cap k
      end
  | Grp r1 => rmatch r1 i s cap (fun j s' _ => k j s' (Some (i, j)))
  | Bol => if i =? 0 then k i s cap else None
  end.
End Matcher.

(** One match: start index, end index, span of capture group 1. *)
Record MatchResult := { m_start : nat; m_end : nat; m_group : capture }.

(** The leftmost match at or after index [i], where [s] is the input from
    [i] on. *)
Fixpoint search (ic : bool) (r : regex) (i : nat) (s : str) : option MatchResult :=
  match rmatch ic r i s None (fun j _ cap => Some (j, cap)) with
  | Some (j, cap) => Some {| m_start := i; m_end := j; m_group := cap |}
  | None =>
      match s with
      | [] => None
      | _ :: s' => search ic r (S i) s'
      end
  end.

(** A regular-expression object: its source text as [toString] prints it,
    its flags, its pattern, and the mutable [lastIndex]. *)
Record RegExp := {
  source : str;
  global : bool;
  ignore_case : bool;
  pattern : regex;
  lastIndex : nat
}.

Definition set_lastIndex (re : RegExp) (n : nat) : RegExp :=
  {| source := source re; global := global re; ignore_case := ignore_case re;
     pattern := pattern re; lastIndex := n |}.

(** RegExpBuiltinExec: a global expression starts at [lastIndex] and leaves
    it at the end of the match, or at 0 on failure; a non-global one starts
    at 0 and leaves [lastIndex] alone. *)
Definition exec (re : RegExp) (s : str) : RegExp * option MatchResult :=
  let start := if global re then lastIndex re else 0 in
  if length s <? start then
    ((if global re then set_lastIndex re 0 else re), None)
  else
    match search (ignore_case re) (pattern re) start (skipn start s) with
    | Some m => ((if global re then set_lastIndex re (m_end m) else re), Some m)
    | None => ((if global re then set_lastIndex re 0 else re), None)
    end.

(** [re.test(s)]. *)
Definition test (re : RegExp) (s : str) : RegExp * bool :=
  let (re', m) := exec re s in
  (re', match m with Some _ => true | None => false end).

(** The successive matches of a global expression from index [start] on;
    after an empty match the search advances by one. *)
Fixpoint all_matches (fuel : nat) (ic : bool) (r : regex) (s : str) (start : nat)
  : list MatchResult :=
  match fuel with
  | O => []
  | S fuel' =>
      if length s <? start then []
      else match search ic r start (skipn start s) with
           | Some m =>
               m :: all_matches fuel' ic r s
                      (if m_end m =? m_start m then S (m_end m) else m_end m)
           | None => []
           end
  end.

(** [[...s.matchAll(re)]]: the matcher is a copy of [re] that starts at
    [re.lastIndex]; [re] itself is not changed. *)
Definition matchAll (re : RegExp) (s : str) : list MatchResult :=
  all_matches (S (length s)) (ignore_case re) (pattern re) s (lastIndex re).

Definition matched (s : str) (m : MatchResult) : str := substring s (m_start m) (m_end m).

(** Capture group 1 of a match ([undefined] when it did not take part). *)
Definition group1 (s : str) (m : MatchResult) : option str :=
  match m_group m with
  | Some (a, b) => Some (substring s a b)
  | None => None
  end.

(** [s.match(re)] for a global [re]: [lastIndex] is reset, every match is
    collected, and the result is the array of the matched substrings
    (no capture groups), or [null] when there is none.  [lastIndex] is 0
    afterwards. *)
Definition match_global (re : RegExp) (s : str) : option (list str) :=
  match all_matches (S (length s)) (ignore_case re) (pattern re) s 0 with
  | [] => None
  | ms => Some (map (matched s) ms)
  end.

(** [re.test(s)] for an expression literal evaluated on the spot. *)
Definition test_fresh (ic : bool) (r : regex) (s : str) : bool :=
  match search ic r 0 s with Some _ => true | None => false end.

Fixpoint splice (s : str) (pos : nat) (ms : list MatchResult) (r : str) : str :=
  match ms with
  | [] => skipn pos s
  | m :: ms' => substring s pos (m_start m) ++ r ++ splice s (m_end m) ms' r
  end.

(** [s.replace(re, r)] with a non-global literal: the first match. *)
Definition replace_first (ic : bool) (re : regex) (s r : str) : str :=
  match search ic re 0 s with
  | Some m => splice s 0 [m] r
  | None => s
  end.

(** [s.replace(re, r)] with a global literal: every match. *)
Definition replace_all (ic : bool) (re : regex) (s r : str) : str :=
  splice s 0 (all_matches (S (length s)) ic re s 0) r.

End JsRegExp.
Import JsRegExp.

(** ** Numbers

    A Number is an IEEE 754 binary64 value ([spec_float] at precision 53,
    maximal exponent 1024).  Decimal text is converted by correct rounding
    (round to nearest, ties to even), and [Number.prototype.toString] is the
    shortest decimal text that converts back to the same value. *)

Module JsNumber.
Local Open Scope Z_scope.

Definition Number := spec_float.

Definition prec : Z := 53.
Definition emax : Z := 1024.

Definition NaN : Number := S754_nan.
Definition zero : Number := S754_zero false.

(** The Number nearest to the non-negative fraction [n / d]. *)
Definition of_ratio (n d : Z) : Number :=
  match n, d with
  | Zpos p, Zpos q => SFdiv prec emax (S754_finite false p 0) (S754_finite false q 0)
  | _, _ => zero
  end.

Definition Number_eqb (x y : Number) : bool := SFeqb x y.

(** ToBoolean on a Number: false for 0 and NaN. *)
Definition truthy (x : Number) : bool :=
  match x with
  | S754_finite _ _ _ | S754_infinity _ => true
  | S754_zero _ | S754_nan => false
  end.

(** [x > 0]. *)
Definition gt0 (x : Number) : bool := SFltb zero x.

Definition digit_val (c : ascii) : Z := Z.of_nat (nat_of_ascii c) - 48.

Definition digit_char (d : Z) : ascii := ascii_of_nat (Z.to_nat (d + 48)).

(** The value of a string of decimal digits. *)
Definition digits_value (s : str) : Z :=
  fold_left (fun acc c => 10 * acc + digit_val c) s 0.

(** [k] decimal digits of [n], most significant first. *)
Fixpoint pad (k : nat) (n : Z) : str :=
  match k with
  | O => []
  | S k' => pad k' (n / 10) ++ [digit_char (n mod 10)]
  end.

Fixpoint count_digits (fuel : nat) (n : Z) : nat :=
  match fuel with
  | O => 1%nat
  | S f => if n <? 10 then 1%nat else S (count_digits f (n / 10))
  end.

(** The decimal text of a non-negative integer. *)
Definition decimal (n : Z) : str := pad (count_digits (Z.to_nat (Z.log2 n)) n) n.

Fixpoint span (p : ascii -> bool) (s : str) : str * str :=
  match s with
  | c :: s' => if p c then let (a, b) := span p s' in (c :: a, b) else ([], s)
  | [] => ([], [])
  end.

(** [parseFloat] on unsigned decimal text: the longest prefix of the shape
    digits, optional point, digits.  Signs, exponents, leading white space
    and [Infinity] are not modelled; an amount pattern cannot capture
    them. *)
Definition parseFloat (s : str) : Number :=
  let (ip, rest) := span is_digit s in
  let fp := match rest with
            | c :: r => if Ascii.eqb c "."%char then fst (span is_digit r) else []
            | [] => []
            end in
  match ip ++ fp with
  | [] => NaN
  | ds => of_ratio (digits_value ds) (10 ^ Z.of_nat (List.length fp))
  end.

(** [s * 10^p] as a fraction. *)
Definition scale10 (s p : Z) : Z * Z :=
  if 0 <=? p then (s * 10 ^ p, 1) else (s, 10 ^ (- p)).

(** The least [n], searched upward, with [a / b < 10^n]. *)
Fixpoint magnitude (fuel : nat) (a b n : Z) : Z :=
  match fuel with
  | O => n
  | S f =>
      let (c, d) := scale10 1 n in
      if a * d <? b * c then n else magnitude f a b (n + 1)
  end.

(** The digits [s] and the exponent [n] of the shortest decimal
    [s * 10^(n-k)], [k] digits long, that converts back to [x = a / b];
    of two candidates of one length the nearer is taken, the even one on a
    tie. *)
Fixpoint shortest (fuel : nat) (x : Number) (a b n : Z) (k : Z) : Z * Z * Z :=
  let (p, q) := scale10 1 (k - n) in
  let lo := (a * p) / (b * q) in
  let hi := lo + 1 in
  let back s := let (c, d) := scale10 s (n - k) in Number_eqb (of_ratio c d) x in
  let lo_nearer :=
    match (2 * (a * p)) ?= ((2 * lo + 1) * (b * q)) with
    | Lt => true
    | Gt => false
    | Eq => Z.even lo
    end in
  let pick s := if s =? 10 ^ k then (1, n + 1, 1) else (s, n, k) in
  match back lo, back hi with
  | true, true => pick (if lo_nearer then lo else hi)
  | true, false => pick lo
  | false, true => pick hi
  | false, false =>
      match fuel with
      | O => (lo, n, k)
      | S f => shortest f x a b n (k + 1)
      end
  end.

(** Number::toString for radix 10. *)
Definition toString (x : Number) : str :=
  match x with
  | S754_nan => lit "NaN"
  | S754_zero _ => lit "0"
  | S754_infinity sg => (if sg then lit "-" else []) ++ lit "Infinity"
  | S754_finite sg m e =>
      let (a, b) := if 0 <=? e then (Zpos m * 2 ^ e, 1) else (Zpos m, 2 ^ (- e)) in
      let n0 := magnitude 640 a b (-324) in
      let '(s, n, k) := shortest 17 (S754_finite false m e) a b n0 1 in
      let ds := pad (Z.to_nat k) s in
      let body :=
        if (k <=? n) && (n <=? 21) then
          ds ++ repeat "0"%char (Z.to_nat (n - k))
        else if (0 <? n) && (n <=? 21) then
          firstn (Z.to_nat n) ds ++ lit "." ++ skipn (Z.to_nat n) ds
        else if (-6 <? n) && (n <=? 0) then
          lit "0." ++ repeat "0"%char (Z.to_nat (- n)) ++ ds
        else
          let ex := (if n - 1 <? 0 then lit "-" else lit "+") ++ decimal (Z.abs (n - 1)) in
          match ds with
          | [d] => [d] ++ lit "e" ++ ex
          | d :: ds' => [d] ++ lit "." ++ ds' ++ lit "e" ++ ex
          | [] => []
          end in
      (if sg then lit "-" else []) ++ body
  end.

End JsNumber.
Import JsNumber.

(** ** Dates

    A Date holds a time value: milliseconds since the epoch in UTC, or NaN
    ([None]) for an invalid date.  Days are counted in the proleptic
    Gregorian calendar.  The host's local time zone is a fixed offset
    [tza], in milliseconds east of UTC. *)

Module JsDate.
Local Open Scope Z_scope.

Definition msPerDay : Z := 86400000.

(** Day number (days since 1970-01-01) of a civil date, [m] in 1..12. *)
Definition days_from_civil (y m d : Z) : Z :=
  let y' := if m <=? 2 then y - 1 else y in
  let era := y' / 400 in
  let yoe := y' - era * 400 in
  let doy := (153 * (if 2 <? m then m - 3 else m + 9) + 2) / 5 + d - 1 in
  let doe := yoe * 365 + yoe / 4 - yoe / 100 + doy in
  era * 146097 + doe - 719468.

(** Year, month (1..12) and day of the month of a day number. *)
Definition civil_from_days (z : Z) : Z * Z * Z :=
  let z' := z + 719468 in
  let era := z' / 146097 in
  let doe := z' - era * 146097 in
  let yoe := (doe - doe / 1460 + doe / 36524 - doe / 146096) / 365 in
  let doy := doe - (365 * yoe + yoe / 4 - yoe / 100) in
  let mp := (5 * doy + 2) / 153 in
  let d := doy - (153 * mp + 2) / 5 + 1 in
  let m := if mp <? 10 then mp + 3 else mp - 9 in
  ((if m <=? 2 then yoe + era * 400 + 1 else yoe + era * 400), m, d).

(** MakeDay(year, month, date) with a 0-based month: months beyond the
    year and days beyond the month carry over. *)
Definition MakeDay (year month date : Z) : Z :=
  days_from_civil (year + month / 12) (month mod 12 + 1) 1 + date - 1.

Definition TimeClip (t : Z) : option Z :=
  if Z.abs t <=? 8640000000000000 then Some t else None.

(** ToNumber on a string of decimal digits (the empty string is 0); any
    other text is taken as NaN.  The other numeric literal forms (signs,
    fractions, exponents, hexadecimal, surrounding white space) are not
    modelled; a date pattern cannot produce them. *)
Definition ToNumber (s : str) : option Z :=
  if forallb is_digit s then Some (digits_value s) else None.

(** [new Date(year, month, date)]: local midnight of that day, years 0..99
    counted from 1900. *)
Definition Date_local (tza : Z) (year month date : option Z) : option Z :=
  match year, month, date with
  | Some y, Some m, Some d =>
      let yr := if (0 <=? y) && (y <=? 99) then 1900 + y else y in
      TimeClip (MakeDay yr m d * msPerDay - tza)
  | _, _, _ => None
  end.

Definition year_text (y : Z) : str :=
  if (0 <=? y) && (y <=? 9999) then pad 4 y
  else (if y <? 0 then lit "-" else lit "+") ++ pad 6 (Z.abs y).

Definition date_text (t : Z) : str :=
  let '(y, m, d) := civil_from_days (t / msPerDay) in
  year_text y ++ lit "-" ++ pad 2 m ++ lit "-" ++ pad 2 d.

(** [toISOString] of a valid time value. *)
Definition toISOString (t : Z) : str :=
  let r := t mod msPerDay in
  date_text t ++ lit "T" ++ pad 2 (r / 3600000) ++ lit ":" ++ pad 2 (r / 60000 mod 60)
    ++ lit ":" ++ pad 2 (r / 1000 mod 60) ++ lit "." ++ pad 3 (r mod 1000) ++ lit "Z".

Definition take_digits (k : nat) (s : str) : option (Z * str) :=
  let ds := firstn k s in
  if (List.length ds =? k)%nat && forallb is_digit ds
  then Some (digits_value ds, skipn k s) else None.

(** The year of a date-time string: four digits, or a sign and six digits
    (the text [-000000] is not a year). *)
Definition take_year (s : str) : option (Z * str) :=
  match s with
  | c :: r =>
      if Ascii.eqb c "+"%char then take_digits 6 r
      else if Ascii.eqb c "-"%char then
        match take_digits 6 r with
        | Some (y, r') => if y =? 0 then None else Some (- y, r')
        | None => None
        end
      else take_digits 4 s
  | [] => None
  end.

(** [new Date(s)] / [Date.parse(s)] on the date-only form of the date-time
    string format, which is read as UTC: month 01..12, day 01..31, a day
    beyond the month carrying over.  Any other text is taken as NaN (what
    an engine makes of text outside the format is its own choice). *)
Definition Date_parse (s : str) : option Z :=
  match take_year s with
  | Some (y, c1 :: r1) =>
      match take_digits 2 r1 with
      | Some (m, c2 :: r2) =>
          match take_digits 2 r2 with
          | Some (d, []) =>
              if Ascii.eqb c1 "-"%char && Ascii.eqb c2 "-"%char
                 && (1 <=? m) && (m <=? 12) && (1 <=? d) && (d <=? 31)
              then TimeClip (MakeDay y (m - 1) d * msPerDay)
              else None
          | _ => None
          end
      | _ => None
      end
  | _ => None
  end.

End JsDate.
Import JsDate.

(** ** Arrays and completions *)

Module JsArray.

Section Sort.
Variable A : Type.
(** The comparator's result: a number, or NaN ([None]), which [sort]
    reads as +0. *)
Variable cmp : A -> A -> option Z.

Definition after (x y : A) : bool :=
  match cmp x y with Some v => (0 <? v)%Z | None => false end.

Fixpoint insert (x : A) (l : list A) : list A :=
  match l with
  | [] => [x]
  | y :: l' => if after x y then y :: insert x l' else x :: l
  end.

(** [Array.prototype.sort(cmp)] as a stable insertion sort: an element
    moves behind those it compares greater than, and keeps its place
    among those it compares equal to.  Every stable sort returns this
    same array when the comparator is a consistent ordering. *)
Definition sort (l : list A) : list A := fold_right insert [] l.
End Sort.

(** How a call completes: normally with a value, or by throwing an error
    with a message. *)
Inductive completion (A : Type) : Type :=
| Normal (a : A)
| Throw (message : str).
Arguments Normal {A} a.
Arguments Throw {A} message.

End JsArray.
Import JsArray.

(** ** The processor *)

Module TransactionHistoryProcessor.
Local Open Scope string_scope.

Inductive Direction := income | expense.

(** The object [parseTransactionLine] builds; [None] is [null]. *)
Record Transaction := {
  date : option str;
  description : option str;
  amount : option Number;
  type : option Direction;
  category : option str;
  raw_line : str
}.

(** ToBoolean on a string-or-null field and on a number-or-null field. *)
Definition truthy_str (v : option str) : bool :=
  match v with Some (_ :: _) => true | _ => false end.

Definition truthy_num (v : option Number) : bool :=
  match v with Some x => truthy x | None => false end.

Definition regexp (src : string) (r : regex) : RegExp :=
  {| source := lit src; global := true; ignore_case := false; pattern := r; lastIndex := 0 |}.

Definition digits (lo hi : nat) : regex := Rep is_digit lo (Some hi).

(** [this.patterns.date] *)
Definition date_patterns : list RegExp :=
  [ regexp "/(\d{1,2}\/\d{1,2}\/\d{4})/g"
      (Grp (seq [digits 1 2; Chr "/"; digits 1 2; Chr "/"; digits 4 4]));
    regexp "/(\d{1,2}-\d{1,2}-\d{4})/g"
      (Grp (seq [digits 1 2; Chr "-"; digits 1 2; Chr "-"; digits 4 4]));
    regexp "/(\d{4}-\d{1,2}-\d{1,2})/g"
      (Grp (seq [digits 4 4; Chr "-"; digits 1 2; Chr "-"; digits 1 2])) ].

(** The capturing group shared by the amount patterns: digits, an optional
    comma, digits, an optional point, digits. *)
Definition numeral : regex :=
  Grp (seq [plus is_digit; opt (one ","); star is_digit; opt (one "."); star is_digit]).

(** [this.patterns.amount] as the constructor leaves it. *)
Definition amount_patterns : list RegExp :=
  [ regexp "/\$(\d+,?\d*\.?\d*)/g" (Cat (Chr "$") numeral);
    regexp "/(\d+,?\d*\.?\d*)\s*CR/g" (seq [numeral; star is_space; Chr "C"; Chr "R"]);
    regexp "/(\d+,?\d*\.?\d*)\s*DR/g" (seq [numeral; star is_space; Chr "D"; Chr "R"]);
    regexp "/-\$?(\d+,?\d*\.?\d*)/g" (seq [Chr "-"; opt (one "$"); numeral]);
    regexp "/(\d+,?\d*\.?\d*)-/g" (Cat numeral (Chr "-")) ].

(** The mutable part of the processor object: the amount expressions of
    [this.patterns], each with its [lastIndex].  (The date expressions are
    only used through [String.prototype.match], which leaves their
    [lastIndex] at 0.) *)
Definition Processor := list RegExp.

Definition new_processor : Processor := amount_patterns.

(** [this.categoryMappings], in the order of its keys. *)
Definition categoryMappings : list (str * str) :=
  map (fun kv => (lit (fst kv), lit (snd kv)))
    [ ("ATM", "Cash"); ("DEPOSIT", "Income"); ("PAYROLL", "Salary");
      ("GROCERY", "Food & Dining"); ("RESTAURANT", "Food & Dining");
      ("GAS", "Transportation"); ("FUEL", "Transportation");
      ("PHARMACY", "Healthcare"); ("MEDICAL", "Healthcare");
      ("RENT", "Bills & Utilities"); ("ELECTRIC", "Bills & Utilities");
      ("UTILITY", "Bills & Utilities"); ("AMAZON", "Shopping");
      ("TARGET", "Shopping"); ("WALMART", "Shopping");
      ("NETFLIX", "Entertainment"); ("SPOTIFY", "Entertainment") ].

Definition headerKeywords : list str :=
  map lit [ "DATE"; "DESCRIPTION"; "AMOUNT"; "BALANCE"; "TRANSACTION";
            "ACCOUNT"; "STATEMENT"; "PERIOD"; "PAGE"; "SUMMARY" ].

Definition incomeKeywords : list str :=
  map lit [ "DEPOSIT"; "PAYROLL"; "SALARY"; "WAGE"; "INCOME"; "REFUND";
            "DIVIDEND"; "INTEREST"; "BONUS"; "COMMISSION" ].

(** [patterns.some(pattern => pattern.test(line))]: the expressions are
    tested in order until one matches; each test moves that expression's
    [lastIndex]. *)
Fixpoint some_test (ps : list RegExp) (line : str) : list RegExp * bool :=
  match ps with
  | [] => ([], false)
  | p :: ps' =>
      let (p', hit) := test p line in
      if hit then (p' :: ps', true)
      else let (ps'', hit') := some_test ps' line in (p' :: ps'', hit')
  end.

Definition isHeaderLine (this : Processor) (line : str) : Processor * bool :=
  let upperLine := toUpperCase line in
  if existsb (fun keyword => includes upperLine keyword) headerKeywords then
    let (this', hit) := some_test this line in (this', negb hit)
  else (this, false).

(** [/(?:balance|bal|total)[:\s]*\$?\d+/i] and [/(?:available|pending)/i] *)
Definition isBalanceLine (line : str) : bool :=
  test_fresh true
    (seq [Alt (word (lit "balance")) (Alt (word (lit "bal")) (word (lit "total")));
          star (fun c => one ":" c || is_space c); opt (one "$"); plus is_digit]) line
  && negb (test_fresh true (Alt (word (lit "available")) (word (lit "pending"))) line).

Definition isIncomeDescription (description : str) : bool :=
  let upperDesc := toUpperCase description in
  existsb (fun keyword => includes upperDesc keyword) incomeKeywords.

Definition cleanupDescription (description : str) : str :=
  let cleaned :=
    trim
      (replace_all false (Cat (Chr "#") (plus is_digit))
         (replace_all false (plus (one "*"))
            (replace_all false (plus is_space)
               (replace_first false (seq [Bol; plus is_digit; star is_space]) description [])
               (lit " "))
            [])
         []) in
  if (0 <? List.length cleaned)%nat then capitalize cleaned else cleaned.

Fixpoint first_category (upperDesc : str) (entries : list (str * str)) : option str :=
  match entries with
  | [] => None
  | (keyword, cat) :: rest =>
      if includes upperDesc keyword then Some cat else first_category upperDesc rest
  end.

Definition suggestCategory (description : str) : str :=
  let upperDesc := toUpperCase description in
  match first_category upperDesc categoryMappings with
  | Some cat => cat
  | None =>
      if includes upperDesc (lit "TRANSFER") || includes upperDesc (lit "PAYMENT")
      then lit "Transfer" else lit "Other"
  end.

Section Host.
(** Local time zone of the host, in milliseconds east of UTC. *)
Variable tza : Z.

(** [dateString] is [None] when the caller passes [undefined]: the call
    [dateString.includes] then throws inside the [try], and the [catch]
    falls through to [return null].  The local [date] stays [undefined]
    (outer [None]) unless a branch builds a Date, which may be invalid
    (inner [None]). *)
Definition normalizeDate (dateString : option str) : option str :=
  match dateString with
  | None => None
  | Some s =>
      let minus1 := option_map (fun n => (n - 1)%Z) in
      let date :=
        if includes s (lit "/") then
          match split "/" s with
          | [p0; p1; p2] => Some (Date_local tza (ToNumber p2) (minus1 (ToNumber p0)) (ToNumber p1))
          | _ => None
          end
        else if includes s (lit "-") then
          match split "-" s with
          | [p0; p1; p2] =>
              if (List.length p0 =? 4)%nat
              then Some (Date_local tza (ToNumber p0) (minus1 (ToNumber p1)) (ToNumber p2))
              else Some (Date_local tza (ToNumber p2) (minus1 (ToNumber p1)) (ToNumber p0))
          | _ => None
          end
        else None in
      match date with
      | Some (Some t) => Some (hd [] (split "T" (toISOString t)))
      | _ => None
      end
  end.

(** The date loop: the first pattern that matches decides;
    [dateMatch[1]] is the second element of the array [match] returns. *)
Fixpoint extract_date (ps : list RegExp) (line : str) : option str :=
  match ps with
  | [] => None
  | datePattern :: ps' =>
      match match_global datePattern line with
      | Some dateMatch => normalizeDate (nth_error dateMatch 1)
      | None => extract_date ps' line
      end
  end.

(** The amount loop: amount, [isDebit], [isCredit]. *)
Fixpoint extract_amount (ps : list RegExp) (line : str) : option Number * bool * bool :=
  match ps with
  | [] => (None, false, false)
  | amountPattern :: ps' =>
      match rev (matchAll amountPattern line) with
      | lastMatch :: _ =>
          let amountStr := match group1 line lastMatch with Some g => g | None => [] end in
          let amountStr := replace_all false (Chr ",") amountStr [] in
          let a := parseFloat amountStr in
          if includes line (lit "DR") || includes line (lit "-")
             || includes (source amountPattern) (lit "-")
          then (Some a, true, false)
          else if includes line (lit "CR") || includes line (lit "DEPOSIT")
          then (Some a, false, true)
          else (Some a, false, false)
      | [] => extract_amount ps' line
      end
  end.

(** The description of a line, once date and amount are known. *)
Definition extract_description (line : str) (d : option str) (a : option Number)
  : option str :=
  match a with
  | Some x =>
      if truthy x then
        match lastIndexOf line (toString x) with
        | Some (S _ as amountIndex) =>
            let desc := trim (substring line 0 amountIndex) in
            let desc := match d with
                        | Some (_ :: _ as ds) => trim (replace_str desc ds [])
                        | _ => desc
                        end in
            Some (cleanupDescription desc)
        | _ => None
        end
      else None
  | None => None
  end.

Definition parseTransactionLine (this : Processor) (line : str)
  : Processor * option Transaction :=
  let (this', header) := isHeaderLine this line in
  if header || isBalanceLine line then (this', None)
  else
    let d := extract_date date_patterns line in
    let '(a, isDebit, isCredit) := extract_amount this' line in
    let desc := extract_description line d a in
    if truthy_num a && truthy_str desc then
      let text := match desc with Some t => t | None => [] end in
      (this', Some {| date := d;
                      description := desc;
                      amount := a;
                      type := Some (if isCredit || isIncomeDescription text
                                    then income else expense);
                      category := Some (suggestCategory text);
                      raw_line := line |})
    else (this', None).

(** [new Date(v)] for a field that holds a string or [null]. *)
Definition new_Date (v : option str) : option Z :=
  match v with
  | Some s => Date_parse s
  | None => Some 0%Z
  end.

Definition minus (a b : option Z) : option Z :=
  match a, b with
  | Some x, Some y => Some (x - y)%Z
  | _, _ => None
  end.

(** The comparator of [cleanupTransactions]. *)
Definition by_date (a b : Transaction) : option Z :=
  minus (new_Date (date a)) (new_Date (date b)).

Definition or_default (v : option str) (dflt : string) : option str :=
  if truthy_str v then v else Some (lit dflt).

(** The callbacks of [cleanupTransactions], in the order of the chain. *)
Definition has_fields (t : Transaction) : bool :=
  truthy_str (date t) && truthy_num (amount t) && truthy_str (description t).

Definition positive_amount (t : Transaction) : bool :=
  match amount t with Some x => gt0 x | None => false end.

Definition with_defaults (t : Transaction) : Transaction :=
  {| date := date t;
     description := or_default (description t) "Unknown Transaction";
     amount := amount t;
     type := type t;
     category := or_default (category t) "Other";
     raw_line := raw_line t |}.

Definition cleanupTransactions (transactions : list Transaction) : list Transaction :=
  sort by_date
    (map with_defaults (filter positive_amount (filter has_fields transactions))).

(** The loop of [parseTransactionText] over the lines. *)
Fixpoint parse_lines (this : Processor) (lines : list str)
  : Processor * list Transaction :=
  match lines with
  | [] => (this, [])
  | line :: rest =>
      let (this1, transaction) := parseTransactionLine this line in
      let (this2, transactions) := parse_lines this1 rest in
      (this2, match transaction with
              | Some t => t :: transactions
              | None => transactions
              end)
  end.

Definition segment (text : str) : list str :=
  filter (fun line => (0 <? List.length line)%nat) (map trim (split "010" text)).

Definition parseTransactionText (this : Processor) (text : str)
  : Processor * list Transaction :=
  let (this', transactions) := parse_lines this (segment text) in
  (this', cleanupTransactions transactions).

Record DateRange := { range_start : str; range_end : str }.

(** [toISOString] throws a RangeError on an invalid date. *)
Definition iso_day (d : option Z) : completion str :=
  match d with
  | Some t => Normal (hd [] (split "T" (toISOString t)))
  | None => Throw (lit "Invalid time value")
  end.

Definition getDateRange (transactions : list Transaction)
  : completion (option DateRange) :=
  match transactions with
  | [] => Normal None
  | _ =>
      let dates := sort minus (map (fun t => new_Date (date t)) transactions) in
      match iso_day (hd None dates) with
      | Throw msg => Throw msg
      | Normal s =>
          match iso_day (last dates None) with
          | Throw msg => Throw msg
          | Normal e => Normal (Some {| range_start := s; range_end := e |})
          end
      end
  end.

Record Summary := {
  totalTransactions : nat;
  totalDebits : nat;
  totalCredits : nat;
  dateRange : option DateRange
}.

(** The object [processPDF] resolves to; a field that the object does not
    have is [None]. *)
Record ProcessingResult := {
  success : bool;
  transactions : list Transaction;
  rawText : option str;
  summary : option Summary;
  error : option str
}.

Definition is_type (d : Direction) (t : Transaction) : bool :=
  match type t, d with
  | Some income, income | Some expense, expense => true
  | _, _ => false
  end.

(** The file system and the PDF reader, outside the processor:
    [fs.readFileSync] returns the bytes of a file or throws, and
    [pdfParse] resolves to the text of the document or rejects. *)
Variable readFileSync : str -> completion str.
Variable pdfParse : str -> completion str.

Definition failure (message : str) : ProcessingResult :=
  {| success := false; transactions := []; rawText := None; summary := None;
     error := Some message |}.

Definition processPDF (this : Processor) (filePath : str)
  : Processor * ProcessingResult :=
  match readFileSync filePath with
  | Throw msg => (this, failure msg)
  | Normal dataBuffer =>
      match pdfParse dataBuffer with
      | Throw msg => (this, failure msg)
      | Normal text =>
          let (this', txs) := parseTransactionText this text in
          match getDateRange txs with
          | Throw msg => (this', failure msg)
          | Normal range =>
              (this',
               {| success := true;
                  transactions := txs;
                  rawText := Some text;
                  summary := Some {| totalTransactions := List.length txs;
                                     totalDebits := List.length (filter (is_type expense) txs);
                                     totalCredits := List.length (filter (is_type income) txs);
                                     dateRange := range |};
                  error := None |})
          end
      end
  end.

End Host.

End TransactionHistoryProcessor.
Import TransactionHistoryProcessor.

(** * Facts about the built-ins *)

Section SortFacts.
Variable A : Type.
Variable cmp : A -> A -> option Z.

Lemma insert_Forall (P : A -> Prop) x l :
  P x -> Forall P l -> Forall P (insert cmp x l).
Proof.
  intros Hx Hl. induction Hl as [|y l Hy Hl IH]; cbn.
  - now constructor.
  - destruct (after cmp x y); repeat constructor; assumption.
Qed.

Lemma sort_cons x l : sort cmp (x :: l) = insert cmp x (sort cmp l).
Proof. reflexivity. Qed.

Lemma sort_Forall (P : A -> Prop) l : Forall P l -> Forall P (sort cmp l).
Proof.
  induction 1 as [|x l Hx Hl IH]; [ constructor | ].
  rewrite sort_cons. now apply insert_Forall.
Qed.

Lemma insert_length x l : List.length (insert cmp x l) = S (List.length l).
Proof.
  induction l as [|y l IH]; cbn; [ reflexivity | ].
  destruct (after cmp x y); cbn; congruence.
Qed.

(** Two neighbours are in order when the first need not move behind the
    second. *)
Definition in_order (x y : A) : Prop := after cmp x y = false.

Lemma sort_fixes_sorted l : Sorted in_order l -> sort cmp l = l.
Proof.
  induction 1 as [|x l Hl IH Hx]; [ reflexivity | ].
  rewrite sort_cons, IH. destruct Hx as [|y l' Hxy]; cbn; [ reflexivity | ].
  unfold in_order in Hxy. now rewrite Hxy.
Qed.

Section Antisymmetric.
Hypothesis antisym : forall x y, after cmp x y = true -> after cmp y x = false.

Lemma insert_Sorted x l : Sorted in_order l -> Sorted in_order (insert cmp x l).
Proof.
  induction 1 as [|y l Hl IH Hy]; cbn.
  - repeat constructor.
  - destruct (after cmp x y) eqn:E.
    + constructor; [ exact IH | ].
      destruct Hy as [|z l' Hyz]; cbn.
      * constructor. now apply antisym.
      * destruct (after cmp x z); constructor; [ exact Hyz | now apply antisym ].
    + repeat constructor; assumption.
Qed.

Lemma sort_Sorted l : Sorted in_order (sort cmp l).
Proof.
  induction l as [|x l IH]; [ constructor | ].
  rewrite sort_cons. now apply insert_Sorted.
Qed.

Lemma sort_idempotent l : sort cmp (sort cmp l) = sort cmp l.
Proof. apply sort_fixes_sorted, sort_Sorted. Qed.
End Antisymmetric.

(** Sorting by a numeric key that every element has. *)
Section Keyed.
Variable key : A -> option Z.
Hypothesis cmp_key :
  forall x y, cmp x y = match key x, key y with
                        | Some a, Some b => Some (a - b)%Z
                        | _, _ => None
                        end.

Definition key_le (x y : A) : Prop :=
  exists a b, key x = Some a /\ key y = Some b /\ (a <= b)%Z.

Definition keyed (x : A) : Prop := exists a, key x = Some a.

Lemma key_le_trans x y z : key_le x y -> key_le y z -> key_le x z.
Proof.
  intros (a & b & Ha & Hb & Hab) (b' & c & Hb' & Hc & Hbc).
  exists a, c. repeat split; try assumption.
  rewrite Hb in Hb'. injection Hb' as <-. lia.
Qed.

Lemma after_keyed x y :
  keyed x -> keyed y ->
  if after cmp x y then key_le y x else key_le x y.
Proof.
  intros [a Ha] [b Hb]. unfold after. rewrite cmp_key, Ha, Hb.
  destruct (0 <? a - b)%Z eqn:E.
  - apply Z.ltb_lt in E. exists b, a. repeat split; try assumption. lia.
  - apply Z.ltb_ge in E. exists a, b. repeat split; try assumption. lia.
Qed.

Lemma insert_StronglySorted x l :
  keyed x -> Forall keyed l ->
  StronglySorted key_le l -> StronglySorted key_le (insert cmp x l).
Proof.
  intros Hx Hk Hs. induction Hs as [|y l Hs IH Hy]; cbn.
  - repeat constructor.
  - inversion Hk as [|? ? Ky Kl]; subst.
    pose proof (after_keyed Hx Ky) as Hc.
    destruct (after cmp x y).
    + constructor; [ now apply IH | ].
      apply insert_Forall; assumption.
    + constructor; [ now constructor | ].
      constructor; [ exact Hc | ].
      eapply Forall_impl; [ | exact Hy ].
      intros z Hz. now apply key_le_trans with y.
Qed.

Lemma sort_StronglySorted l :
  Forall keyed l -> StronglySorted key_le (sort cmp l).
Proof.
  induction 1 as [|x l Hx Hl IH]; [ constructor | ].
  rewrite sort_cons.
  apply insert_StronglySorted; [ assumption | now apply sort_Forall | assumption ].
Qed.
End Keyed.
End SortFacts.

Lemma filter_all (A : Type) (f : A -> bool) (l : list A) :
  Forall (fun x => f x = true) l -> filter f l = l.
Proof.
  induction 1 as [|x l Hx Hl IH]; cbn; [ reflexivity | ].
  now rewrite Hx, IH.
Qed.

Lemma map_fixed (A : Type) (f : A -> A) (l : list A) :
  Forall (fun x => f x = x) l -> map f l = l.
Proof.
  induction 1 as [|x l Hx Hl IH]; cbn; [ reflexivity | ].
  now rewrite Hx, IH.
Qed.

Lemma Forall_filter (A : Type) (f : A -> bool) (l : list A) :
  Forall (fun x => f x = true) (filter f l).
Proof.
  induction l as [|x l IH]; cbn; [ constructor | ].
  destruct (f x) eqn:E; [ constructor | ]; assumption.
Qed.

Lemma Forall_filter_keeps (A : Type) (P : A -> Prop) (f : A -> bool) (l : list A) :
  Forall P l -> Forall P (filter f l).
Proof.
  induction 1 as [|x l Hx Hl IH]; cbn; [ constructor | ].
  destruct (f x); [ constructor | ]; assumption.
Qed.

Unset Implicit Arguments.

(** ** Regular expressions: a match never ends before it starts, and the
    fuel of [all_matches] is never used up *)

Section RegexFacts.
Variable R : Type.
Variable ic : bool.

Lemma rep_advances p s : forall lo hi i (k : nat -> str -> option R) res,
  rep p lo hi i s k = Some res ->
  exists j s', (i <= j)%nat /\ k j s' = Some res.
Proof.
  induction s as [|c s IH]; intros lo hi i k res H.
  - cbn in H. destruct hi as [[|h]|], lo; try discriminate; eauto.
  - cbn in H.
    assert (Stop : match lo with O => k i (c :: s) | S _ => None end = Some res ->
                   exists j s', (i <= j)%nat /\ k j s' = Some res)
      by (destruct lo; [ eauto | discriminate ]).
    destruct hi as [[|h]|]; [ now apply Stop | | ].
    + destruct (p c); [ | now apply Stop ].
      destruct (rep p (pred lo) (option_map pred (Some (S h))) (S i) s k) eqn:E;
        [ | now apply Stop ].
      injection H as ->. apply IH in E as (j & s' & Hj & Hk).
      exists j, s'. split; [ lia | exact Hk ].
    + destruct (p c); [ | now apply Stop ].
      destruct (rep p (pred lo) (option_map pred None) (S i) s k) eqn:E;
        [ | now apply Stop ].
      injection H as ->. apply IH in E as (j & s' & Hj & Hk).
      exists j, s'. split; [ lia | exact Hk ].
Qed.

Lemma rmatch_advances r : forall i s cap (k : nat -> str -> capture -> option R) res,
  rmatch ic r i s cap k = Some res ->
  exists j s' cap', (i <= j)%nat /\ k j s' cap' = Some res.
Proof.
  induction r as [c|p|p lo hi|r1 IH1 r2 IH2|r1 IH1 r2 IH2|r1 IH1|];
    intros i s cap k res H; cbn in H.
  - destruct s as [|x s]; [ discriminate | ].
    destruct (Ascii.eqb _ _); [ | discriminate ].
    exists (S i), s, cap. split; [ lia | exact H ].
  - destruct s as [|x s]; [ discriminate | ].
    destruct (p x); [ | discriminate ].
    exists (S i), s, cap. split; [ lia | exact H ].
  - apply rep_advances in H as (j & s' & Hj & Hk). eauto.
  - apply IH1 in H as (j1 & s1 & c1 & H1 & H).
    apply IH2 in H as (j2 & s2 & c2 & H2 & H).
    exists j2, s2, c2. split; [ lia | exact H ].
  - destruct (rmatch ic r1 i s cap k) eqn:E.
    + injection H as ->. now apply IH1 in E.
    + now apply IH2 in H.
  - apply IH1 in H as (j & s' & c' & Hj & H). eauto.
  - destruct (i =? 0)%nat; [ | discriminate ]. eauto.
Qed.
End RegexFacts.

Lemma search_bounds ic r s : forall i m,
  search ic r i s = Some m -> (i <= m_start m /\ m_start m <= m_end m)%nat.
Proof.
  induction s as [|c s IH]; intros i m H; cbn in H.
  - destruct (rmatch ic r i [] None _) as [[j cap]|] eqn:E; [ | discriminate ].
    injection H as <-. cbn.
    apply rmatch_advances in E as (j' & s' & c' & Hj & E). injection E as Ej Ec. lia.
  - destruct (rmatch ic r i (c :: s) None _) as [[j cap]|] eqn:E.
    + injection H as <-. cbn.
      apply rmatch_advances in E as (j' & s' & c' & Hj & E). injection E as Ej Ec. lia.
    + apply IH in H. lia.
Qed.

(** More fuel than the length of the input allows changes nothing. *)
Lemma all_matches_fuel ic r s n : forall fuel start,
  (S (List.length s) - start <= fuel)%nat ->
  all_matches (fuel + n) ic r s start = all_matches fuel ic r s start.
Proof.
  induction fuel as [|fuel IH]; intros start H.
  - destruct n as [|n]; [ reflexivity | ]. cbn [Nat.add all_matches].
    replace (List.length s <? start)%nat with true; [ reflexivity | ].
    symmetry. apply Nat.ltb_lt. lia.
  - cbn [Nat.add all_matches].
    destruct (List.length s <? start)%nat eqn:L; [ reflexivity | ].
    apply Nat.ltb_ge in L.
    destruct (search ic r start (skipn start s)) as [m|] eqn:E; [ | reflexivity ].
    apply search_bounds in E as [E1 E2].
    f_equal. apply IH.
    destruct (m_end m =? m_start m)%nat eqn:Q;
      [ apply Nat.eqb_eq in Q | apply Nat.eqb_neq in Q ]; lia.
Qed.

Lemma matchAll_fuel re s n :
  all_matches (S (List.length s) + n) (ignore_case re) (pattern re) s (lastIndex re)
  = matchAll re s.
Proof. unfold matchAll. apply all_matches_fuel. lia. Qed.

(** ** Decimal digits, the calendar and the date-time string format *)

Section DateFacts.
Local Open Scope Z_scope.

Lemma digit_char_spec d : 0 <= d <= 9 ->
  is_digit (digit_char d) = true /\ digit_val (digit_char d) = d.
Proof.
  intro H.
  assert (C : d = 0 \/ d = 1 \/ d = 2 \/ d = 3 \/ d = 4 \/ d = 5 \/ d = 6 \/ d = 7
              \/ d = 8 \/ d = 9) by lia.
  repeat (destruct C as [-> | C]; [ split; reflexivity | ]). subst d. split; reflexivity.
Qed.

Lemma pad_length k n : List.length (pad k n) = k.
Proof.
  revert n. induction k as [|k IH]; intro n; cbn; [ reflexivity | ].
  rewrite length_app, IH. cbn. lia.
Qed.

Lemma pad_digits k n : forallb is_digit (pad k n) = true.
Proof.
  revert n. induction k as [|k IH]; intro n; cbn; [ reflexivity | ].
  rewrite forallb_app, IH. cbn.
  destruct (digit_char_spec (n mod 10)) as [-> _]; [ | reflexivity ].
  pose proof (Z.mod_pos_bound n 10). lia.
Qed.

Lemma digits_value_snoc s c : digits_value (s ++ [c]) = 10 * digits_value s + digit_val c.
Proof. unfold digits_value. now rewrite fold_left_app. Qed.

Lemma digits_value_pad k n : 0 <= n < 10 ^ Z.of_nat k -> digits_value (pad k n) = n.
Proof.
  revert n. induction k as [|k IH]; intros n H.
  - cbn in *. lia.
  - cbn [pad]. rewrite digits_value_snoc.
    rewrite Nat2Z.inj_succ, Z.pow_succ_r in H by lia.
    rewrite IH.
    + destruct (digit_char_spec (n mod 10)) as [_ ->].
      * pose proof (Z.mod_pos_bound n 10). lia.
      * pose proof (Z.div_mod n 10). lia.
    + split; [ apply Z.div_pos; lia | apply Z.div_lt_upper_bound; lia ].
Qed.

Lemma take_digits_pad k n rest :
  0 <= n < 10 ^ Z.of_nat k -> take_digits k (pad k n ++ rest) = Some (n, rest).
Proof.
  intro H. unfold take_digits.
  rewrite firstn_app, pad_length, Nat.sub_diag, firstn_all2 by (rewrite pad_length; lia).
  cbn [firstn]. rewrite app_nil_r, pad_length, Nat.eqb_refl, pad_digits.
  cbn [andb]. rewrite digits_value_pad by exact H.
  rewrite skipn_app, pad_length, Nat.sub_diag, skipn_all2 by (rewrite pad_length; lia).
  reflexivity.
Qed.

Lemma digit_not c x : is_digit c = true -> is_digit x = false -> Ascii.eqb c x = false.
Proof.
  intros Hc Hx. destruct (Ascii.eqb c x) eqn:E; [ | reflexivity ].
  apply Ascii.eqb_eq in E. congruence.
Qed.

Lemma take_year_text y rest :
  -999999 <= y <= 999999 -> take_year (year_text y ++ rest) = Some (y, rest).
Proof.
  intro H. unfold year_text.
  destruct ((0 <=? y) && (y <=? 9999)) eqn:E.
  - apply andb_prop in E as [E1 E2]. apply Z.leb_le in E1, E2.
    pose proof (take_digits_pad 4 y rest ltac:(cbn; lia)) as T.
    pose proof (pad_digits 4 y) as D.
    destruct (pad 4 y) as [|c r] eqn:P; [ discriminate (f_equal (@List.length _) P) | ].
    cbn [forallb] in D. apply andb_prop in D as [Dc _].
    cbn [app take_year] in *.
    rewrite (digit_not c "+"%char Dc eq_refl), (digit_not c "-"%char Dc eq_refl).
    exact T.
  - destruct (y <? 0) eqn:N; [ apply Z.ltb_lt in N | apply Z.ltb_ge in N ].
    + cbn [lit list_ascii_of_string app take_year]. cbn [Ascii.eqb Bool.eqb].
      rewrite take_digits_pad by (cbn; lia).
      replace (Z.abs y =? 0) with false by (symmetry; apply Z.eqb_neq; lia).
      f_equal. f_equal. lia.
    + cbn [lit list_ascii_of_string app take_year]. cbn [Ascii.eqb Bool.eqb].
      rewrite take_digits_pad by (cbn; lia).
      f_equal. f_equal. lia.
Qed.

Lemma yoe_range doe : 0 <= doe < 146097 ->
  let yoe := (doe - doe / 1460 + doe / 36524 - doe / 146096) / 365 in
  0 <= yoe <= 399 /\ 0 <= doe - (365 * yoe + yoe / 4 - yoe / 100) <= 365.
Proof.
  intros H. cbv zeta. Z.to_euclidean_division_equations; lia.
Qed.
Lemma month_day_range doy : 0 <= doy <= 365 ->
  let mp := (5 * doy + 2) / 153 in
  0 <= mp <= 11 /\ 1 <= doy - (153 * mp + 2) / 5 + 1 <= 31.
Proof. intros H. cbv zeta. Z.to_euclidean_division_equations; lia. Qed.

Lemma civil_roundtrip z :
  let '(y, m, d) := civil_from_days z in
  1 <= m <= 12 /\ 1 <= d <= 31 /\ days_from_civil y m d = z.
Proof.
  unfold civil_from_days.
  set (z' := z + 719468).
  set (era := z' / 146097).
  set (doe := z' - era * 146097).
  assert (Hdoe : 0 <= doe < 146097).
  { subst doe era. pose proof (Z.mod_pos_bound z' 146097 ltac:(lia)) as B.
    rewrite Z.mod_eq in B by lia. lia. }
  pose proof (yoe_range doe Hdoe) as Hy. cbv zeta in Hy.
  set (yoe := (doe - doe / 1460 + doe / 36524 - doe / 146096) / 365) in *.
  destruct Hy as [Hyoe Hdoy].
  set (doy := doe - (365 * yoe + yoe / 4 - yoe / 100)) in *.
  pose proof (month_day_range doy Hdoy) as Hm. cbv zeta in Hm.
  set (mp := (5 * doy + 2) / 153) in *.
  destruct Hm as [Hmp Hd].
  set (d := doy - (153 * mp + 2) / 5 + 1) in *.
  assert (Hera : (yoe + era * 400) / 400 = era).
  { symmetry. apply Z.div_unique with yoe; lia. }
  unfold days_from_civil.
  destruct (mp <? 10) eqn:E; [ apply Z.ltb_lt in E | apply Z.ltb_ge in E ].
  - replace (mp + 3 <=? 2) with false by (symmetry; apply Z.leb_gt; lia).
    replace (2 <? mp + 3) with true by (symmetry; apply Z.ltb_lt; lia).
    rewrite Hera.
    replace (mp + 3 - 3) with mp by lia.
    replace (yoe + era * 400 - era * 400) with yoe by lia.
    repeat split; try lia; subst d doy doe z'; lia.
  - replace (mp - 9 <=? 2) with true by (symmetry; apply Z.leb_le; lia).
    replace (2 <? mp - 9) with false by (symmetry; apply Z.ltb_ge; lia).
    replace (yoe + era * 400 + 1 - 1) with (yoe + era * 400) by lia.
    rewrite Hera.
    replace (mp - 9 + 9) with mp by lia.
    replace (yoe + era * 400 - era * 400) with yoe by lia.
    repeat split; try lia; subst d doy doe z'; lia.
Qed.

Lemma civil_year_range z : -100000000 <= z <= 100000000 ->
  let '(y, m, d) := civil_from_days z in -999999 <= y <= 999999.
Proof.
  intros H. unfold civil_from_days.
  set (z' := z + 719468).
  set (era := z' / 146097).
  set (doe := z' - era * 146097).
  assert (Hdoe : 0 <= doe < 146097).
  { subst doe era. pose proof (Z.mod_pos_bound z' 146097 ltac:(lia)) as B.
    rewrite Z.mod_eq in B by lia. lia. }
  pose proof (yoe_range doe Hdoe) as Hy. cbv zeta in Hy.
  set (yoe := (doe - doe / 1460 + doe / 36524 - doe / 146096) / 365) in *.
  destruct Hy as [Hyoe _].
  assert (-700 <= era <= 700).
  { subst era z'. split.
    - apply Z.div_le_lower_bound; lia.
    - apply Z.div_le_upper_bound; lia. }
  destruct (_ <=? 2); lia.
Qed.

Lemma MakeDay_civil y m d : 1 <= m <= 12 -> MakeDay y (m - 1) d = days_from_civil y m d.
Proof.
  intro H. unfold MakeDay.
  rewrite (Z.div_small (m - 1) 12), (Z.mod_small (m - 1) 12) by lia.
  replace (y + 0) with y by lia. replace (m - 1 + 1) with m by lia.
  unfold days_from_civil. lia.
Qed.

Definition max_time : Z := 8640000000000000.

Lemma TimeClip_Some t v : TimeClip t = Some v -> v = t /\ - max_time <= t <= max_time.
Proof.
  unfold TimeClip, max_time. destruct (Z.abs t <=? 8640000000000000) eqn:E; [ | discriminate ].
  apply Z.leb_le in E. intro H. injection H as <-. lia.
Qed.

Lemma Date_parse_date_text t :
  - max_time <= t <= max_time ->
  Date_parse (date_text t) = Some (t / msPerDay * msPerDay).
Proof.
  intro H. unfold max_time in H.
  assert (Hz : -100000000 <= t / msPerDay <= 100000000).
  { unfold msPerDay. split.
    - apply Z.div_le_lower_bound; lia.
    - apply Z.div_le_upper_bound; lia. }
  unfold date_text.
  pose proof (civil_roundtrip (t / msPerDay)) as R.
  pose proof (civil_year_range (t / msPerDay) Hz) as Y.
  destruct (civil_from_days (t / msPerDay)) as [[y m] d].
  destruct R as (Hm & Hd & R).
  unfold Date_parse. rewrite take_year_text by exact Y.
  cbn [lit list_ascii_of_string app].
  rewrite take_digits_pad by (cbn; lia).
  rewrite <- (app_nil_r (pad 2 d)), take_digits_pad by (cbn; lia).
  cbn [Ascii.eqb Bool.eqb andb].
  replace (1 <=? m) with true by (symmetry; apply Z.leb_le; lia).
  replace (m <=? 12) with true by (symmetry; apply Z.leb_le; lia).
  replace (1 <=? d) with true by (symmetry; apply Z.leb_le; lia).
  replace (d <=? 31) with true by (symmetry; apply Z.leb_le; lia).
  cbn [andb]. rewrite MakeDay_civil, R by exact Hm.
  unfold TimeClip.
  replace (Z.abs (t / msPerDay * msPerDay) <=? 8640000000000000) with true; [ reflexivity | ].
  symmetry. apply Z.leb_le. unfold msPerDay in *. lia.
Qed.

Lemma split_head sep a b :
  forallb (fun c => negb (Ascii.eqb c sep)) a = true ->
  hd [] (split sep (a ++ sep :: b)) = a.
Proof.
  induction a as [|x a IH]; cbn; intro H.
  - now rewrite Ascii.eqb_refl.
  - apply andb_prop in H as [Hx Ha]. apply negb_true_iff in Hx. rewrite Hx.
    specialize (IH Ha). destruct (split sep (a ++ sep :: b)); cbn in *; congruence.
Qed.

Definition no_T (s : str) : bool := forallb (fun c => negb (Ascii.eqb c "T"%char)) s.

Lemma pad_no_T k n : no_T (pad k n) = true.
Proof.
  pose proof (pad_digits k n) as D. unfold no_T.
  induction (pad k n) as [|c s IH]; [ reflexivity | ].
  cbn in *. apply andb_prop in D as [Dc Ds].
  rewrite (digit_not c "T"%char Dc eq_refl). cbn. now apply IH.
Qed.

Lemma date_text_no_T t : no_T (date_text t) = true.
Proof.
  unfold date_text. destruct (civil_from_days (t / msPerDay)) as [[y m] d].
  unfold no_T. rewrite !forallb_app. fold (no_T (pad 2 m)) (no_T (pad 2 d)).
  rewrite !pad_no_T. cbn [lit list_ascii_of_string forallb]. cbn [Ascii.eqb Bool.eqb negb andb].
  rewrite !andb_true_r. unfold year_text.
  destruct ((0 <=? y) && (y <=? 9999)); [ apply pad_no_T | ].
  rewrite forallb_app. fold (no_T (pad 6 (Z.abs y))). rewrite pad_no_T.
  destruct (y <? 0); reflexivity.
Qed.

Lemma iso_date_part t : hd [] (split "T" (toISOString t)) = date_text t.
Proof.
  unfold toISOString. cbn [lit list_ascii_of_string app].
  apply split_head. apply date_text_no_T.
Qed.

End DateFacts.

(** * Properties *)

Local Open Scope string_scope.

(** ** The lines of the specification's examples *)

Definition walmart_line : str := lit "01/15/2024 WALMART PURCHASE $45.67".
Definition payroll_line : str := lit "02/01/2024 PAYROLL DEPOSIT $2500.00 CR".
Definition account_line : str := lit "01/15/2024 01/16/2024 ACCOUNT FEE $5.00 $995.00".
Definition coffee_line : str := lit "01/17/2024 01/18/2024 COFFEE SHOP $4.50".
Definition rollover_line : str := lit "01/01/2024 13/45/2024 COFFEE $5.00".

(** Indian Standard Time, UTC+05:30, in milliseconds. *)
Definition IST : Z := 19800000.

(** ** Date normalization *)

(** C1. The token "13/45/2024" is not rejected: month 13 and day 45 carry
    over into the following year, so [normalizeDate] returns the date
    2025-02-14 on a UTC host (2025-02-13 east of it, the local midnight
    being printed in UTC), and a line whose second date token it is stays
    in the final sequence under that date. *)
Theorem normalizeDate_carries_over_invalid_token :
  normalizeDate 0 (Some (lit "13/45/2024")) = Some (lit "2025-02-14") /\
  normalizeDate IST (Some (lit "13/45/2024")) = Some (lit "2025-02-13") /\
  map date (snd (parseTransactionText 0 new_processor rollover_line))
  = [Some (lit "2025-02-14")].
Proof. repeat split; vm_compute; reflexivity. Qed.

(** ** State shared between lines *)

(** C2.  The amount expressions are global and [isHeaderLine] runs [test]
    on them, so their [lastIndex] outlives the line.  The line
    "01/15/2024 01/16/2024 ACCOUNT FEE $5.00 $995.00" contains a header
    keyword and leaves [lastIndex] of the first expression at 39.  Parsing
    this one-line text twice with the same processor gives one transaction
    the first time and none the second; and the line
    "01/17/2024 01/18/2024 COFFEE SHOP $4.50", which yields a transaction
    of amount 4.5 on a fresh processor, yields nothing when it is parsed
    after the account line. *)
Theorem lastIndex_leaks_between_lines :
  let first := parseTransactionText 0 new_processor account_line in
  let second := parseTransactionText 0 (fst first) account_line in
  let used := fst (parseTransactionLine 0 new_processor account_line) in
  List.length (snd first) = 1%nat /\ snd second = [] /\
  map lastIndex used = [39; 0; 0; 0; 0]%nat /\
  option_map (fun t => option_map toString (amount t))
    (snd (parseTransactionLine 0 new_processor coffee_line))
  = Some (Some (lit "4.5")) /\
  snd (parseTransactionLine 0 used coffee_line) = None.
Proof. cbv zeta. repeat split; vm_compute; reflexivity. Qed.

(** ** The specification's example lines *)

(** C3 as stated fails: the category of the payroll line is not "Salary". *)
Lemma payroll_line_is_not_Salary :
  ~ (exists t, snd (parseTransactionLine 0 new_processor payroll_line) = Some t
               /\ type t = Some income
               /\ category t = Some (lit "Salary")
               /\ amount t = Some (parseFloat (lit "2500.00"))).
Proof.
  intros [t [H [_ [C _]]]]. vm_compute in H.
  injection H as <-. vm_compute in C. discriminate C.
Qed.

(** C3, amended.  On a fresh processor, in any time zone, the line
    "02/01/2024 PAYROLL DEPOSIT $2500.00 CR" yields one transaction with
    direction income, amount 2500 and category "Income": DEPOSIT comes
    before PAYROLL in the keyword table and the first keyword found
    decides. *)
Theorem payroll_line_is_Income :
  forall tza,
  exists t, snd (parseTransactionLine tza new_processor payroll_line) = Some t
            /\ type t = Some income
            /\ category t = Some (lit "Income")
            /\ amount t = Some (parseFloat (lit "2500.00"))
            /\ option_map toString (amount t) = Some (lit "2500").
Proof.
  intro tza. eexists. split; [ vm_compute; reflexivity | ].
  repeat split; vm_compute; reflexivity.
Qed.

(** C4.  On a fresh processor, in any time zone, the line
    "01/15/2024 WALMART PURCHASE $45.67" yields a transaction with
    category "Shopping" and direction expense, but without a date
    ([dateMatch[1]] is past the end of the one-element array a global
    [match] returns) and with the description "/15/2024 walmart purchase $"
    (the date token is not removed; only its leading digits are).  The
    validator then drops it: the text yields no transaction. *)
Theorem walmart_line_has_no_date :
  forall tza,
    snd (parseTransactionLine tza new_processor walmart_line)
    = Some {| date := None;
              description := Some (lit "/15/2024 walmart purchase $");
              amount := Some (parseFloat (lit "45.67"));
              type := Some expense;
              category := Some (lit "Shopping");
              raw_line := walmart_line |}
    /\ snd (parseTransactionText tza new_processor walmart_line) = [].
Proof. intro tza. split; vm_compute; reflexivity. Qed.

(** ** Amounts *)

(** C8.  With one separator the amount is the numeral without it:
    "$1,234.56" gives 1234.56.  With two, the pattern stops at the second
    comma: "$1,234,567.89" gives 1234, not 1234567.89. *)
Theorem amount_stops_at_second_separator :
  extract_amount new_processor (lit "$1,234.56")
  = (Some (parseFloat (lit "1234.56")), false, false)
  /\ extract_amount new_processor (lit "$1,234,567.89")
     = (Some (parseFloat (lit "1234")), false, false)
  /\ toString (parseFloat (lit "1234")) = lit "1234"
  /\ parseFloat (lit "1234") <> parseFloat (lit "1234567.89").
Proof.
  repeat split; try (vm_compute; reflexivity).
  vm_compute. discriminate.
Qed.

(** C10.  When the text of the recovered amount occurs last at index 0 of
    the line, the description is not computed and the line yields no
    transaction, whatever the date and the amount are. *)
Theorem amount_at_line_start_yields_nothing :
  forall tza this line x isDebit isCredit,
    extract_amount (fst (isHeaderLine this line)) line = (Some x, isDebit, isCredit) ->
    lastIndexOf line (toString x) = Some 0%nat ->
    snd (parseTransactionLine tza this line) = None.
Proof.
  intros tza this line x isDebit isCredit Ha Hi.
  unfold parseTransactionLine.
  destruct (isHeaderLine this line) as [this' header]. cbn [fst] in Ha.
  destruct (header || isBalanceLine line); [ reflexivity | ].
  rewrite Ha. unfold extract_description.
  rewrite Hi. destruct (truthy x); cbn [truthy_str]; rewrite andb_false_r; reflexivity.
Qed.

Lemma amount_at_line_start_witness :
  let line := lit "45.67 CR 01/15/2024 01/16/2024" in
  extract_date 0 date_patterns line = Some (lit "2024-01-16")
  /\ extract_amount (fst (isHeaderLine new_processor line)) line
     = (Some (parseFloat (lit "45.67")), false, true)
  /\ gt0 (parseFloat (lit "45.67")) = true
  /\ lastIndexOf line (toString (parseFloat (lit "45.67"))) = Some 0%nat
  /\ snd (parseTransactionLine 0 new_processor line) = None.
Proof.
  cbv zeta. refine (conj _ (conj _ (conj _ (conj _ _)))).
  1-4: vm_compute; reflexivity.
  apply (@amount_at_line_start_yields_nothing 0 new_processor
           (lit "45.67 CR 01/15/2024 01/16/2024") (parseFloat (lit "45.67")) false true);
    vm_compute; reflexivity.
Defined.

(** ** Document-level failure *)

Section Documents.
Variable tza : Z.
Variables readFileSync pdfParse : str -> completion str.

(** A result that is not a success carries no transactions. *)
Lemma unsuccessful_result_is_empty this filePath :
  success (snd (processPDF tza readFileSync pdfParse this filePath)) = false ->
  transactions (snd (processPDF tza readFileSync pdfParse this filePath)) = []
  /\ error (snd (processPDF tza readFileSync pdfParse this filePath)) <> None.
Proof.
  unfold processPDF.
  destruct (readFileSync filePath) as [buf|m]; [ | now split ].
  destruct (pdfParse buf) as [text|m]; [ | now split ].
  destruct (parseTransactionText tza this text) as [this' txs].
  destruct (getDateRange txs); cbn; [ discriminate | now split ].
Qed.

(** C7.  When reading the file or decoding the document throws,
    [processPDF] returns success = false, the message of the error, and an
    empty transaction list. *)
Theorem document_failure_returns_no_transactions this filePath msg :
  readFileSync filePath = Throw msg
  \/ (exists buf, readFileSync filePath = Normal buf /\ pdfParse buf = Throw msg) ->
  let r := snd (processPDF tza readFileSync pdfParse this filePath) in
  success r = false /\ error r = Some msg /\ transactions r = [].
Proof.
  intros [Hr | [buf [Hr Hp]]]; cbv zeta; unfold processPDF; rewrite Hr.
  - repeat split.
  - rewrite Hp. repeat split.
Qed.
End Documents.

Lemma document_failure_witness :
  let readFileSync := fun path : str =>
    if str_eqb path (lit "statement.pdf") then Normal (lit "%PDF-1.4 ...")
    else Throw (lit "ENOENT: no such file or directory") in
  let pdfParse := fun _ : str => Throw (lit "Invalid PDF structure") in
  let r1 := snd (processPDF 0 readFileSync pdfParse new_processor (lit "missing.pdf")) in
  let r2 := snd (processPDF 0 readFileSync pdfParse new_processor (lit "statement.pdf")) in
  (success r1 = false /\ error r1 = Some (lit "ENOENT: no such file or directory")
   /\ transactions r1 = [])
  /\ (success r2 = false /\ error r2 = Some (lit "Invalid PDF structure")
      /\ transactions r2 = []).
Proof.
  intros readFileSync pdfParse. split.
  - apply (@document_failure_returns_no_transactions 0 readFileSync pdfParse
             new_processor (lit "missing.pdf") (lit "ENOENT: no such file or directory")).
    left. reflexivity.
  - apply (@document_failure_returns_no_transactions 0 readFileSync pdfParse
             new_processor (lit "statement.pdf") (lit "Invalid PDF structure")).
    right. exists (lit "%PDF-1.4 ..."). split; reflexivity.
Defined.

(** ** Validation *)

Lemma by_date_antisym x y : after by_date x y = true -> after by_date y x = false.
Proof.
  unfold after, by_date, minus.
  destruct (new_Date (date x)), (new_Date (date y)); try discriminate.
  intro H. apply Z.ltb_lt in H. apply Z.ltb_ge. lia.
Qed.

(** [x > 0] holds of the positive finite numbers and of +Infinity. *)
Lemma gt0_positive x :
  gt0 x = true <->
  match x with
  | S754_finite false _ _ | S754_infinity false => True
  | _ => False
  end.
Proof. destruct x as [[]|[]| |[] m e]; cbn; intuition discriminate. Qed.

(** What the filters and the defaults of [cleanupTransactions] establish. *)
Definition validated (t : Transaction) : Prop :=
  has_fields t = true /\ positive_amount t = true /\ with_defaults t = t.

Lemma with_defaults_validated t :
  has_fields t = true -> positive_amount t = true -> validated (with_defaults t).
Proof.
  destruct t as [d desc a ty c r]. unfold validated, has_fields, positive_amount.
  cbn [date description amount type category raw_line with_defaults].
  intros Hf Hp.
  apply andb_prop in Hf as [Hf Hdesc]. apply andb_prop in Hf as [Hd Ha].
  destruct desc as [[|x desc]|]; try discriminate Hdesc.
  repeat split.
  - rewrite Hd, Ha. reflexivity.
  - exact Hp.
  - unfold with_defaults. cbn [date description amount type category raw_line].
    f_equal. destruct c as [[|y c]|]; reflexivity.
Qed.

Lemma cleanupTransactions_validated ts : Forall validated (cleanupTransactions ts).
Proof.
  unfold cleanupTransactions. apply sort_Forall.
  apply Forall_forall. intros t Ht.
  apply in_map_iff in Ht as [u [<- Hu]].
  apply filter_In in Hu as [Hu Hp]. apply filter_In in Hu as [_ Hf].
  now apply with_defaults_validated.
Qed.

(** C5.  Every transaction [cleanupTransactions] returns has an amount
    greater than 0, so has every transaction of the final sequence of
    [parseTransactionText]; and [cleanupTransactions] applied to its own
    result returns that result. *)
Theorem cleanupTransactions_positive_and_idempotent :
  (forall ts, Forall (fun t => exists x, amount t = Some x /\ gt0 x = true)
                (cleanupTransactions ts))
  /\ (forall tza this text,
         Forall (fun t => exists x, amount t = Some x /\ gt0 x = true)
           (snd (parseTransactionText tza this text)))
  /\ (forall ts, cleanupTransactions (cleanupTransactions ts) = cleanupTransactions ts).
Proof.
  assert (P : forall ts, Forall (fun t => exists x, amount t = Some x /\ gt0 x = true)
                           (cleanupTransactions ts)).
  { intro ts. eapply Forall_impl; [ | apply cleanupTransactions_validated ].
    intros t (_ & Hp & _). unfold positive_amount in Hp.
    destruct (amount t) as [x|]; [ now exists x | discriminate ]. }
  split; [ exact P | split ].
  - intros tza this text. unfold parseTransactionText.
    destruct (parse_lines tza this (segment text)) as [this' txs]. apply P.
  - intro ts. pose proof (cleanupTransactions_validated ts) as V.
    set (out := cleanupTransactions ts) in *.
    unfold cleanupTransactions at 1.
    rewrite (@filter_all _ has_fields out)
      by (eapply Forall_impl; [ | exact V ]; now intros t (H & _)).
    rewrite (@filter_all _ positive_amount out)
      by (eapply Forall_impl; [ | exact V ]; now intros t (_ & H & _)).
    rewrite (@map_fixed _ with_defaults out)
      by (eapply Forall_impl; [ | exact V ]; now intros t (_ & _ & H)).
    subst out. unfold cleanupTransactions.
    apply sort_idempotent. exact by_date_antisym.
Qed.

(** ** Direction of the surviving transactions *)

Definition typed (t : Transaction) : Prop :=
  type t = Some income \/ type t = Some expense.

Lemma parseTransactionLine_typed tza this line this' t :
  parseTransactionLine tza this line = (this', Some t) -> typed t.
Proof.
  unfold parseTransactionLine.
  destruct (isHeaderLine this line) as [th header].
  destruct (header || isBalanceLine line); [ discriminate | ].
  destruct (extract_amount th line) as [[a isDebit] isCredit].
  destruct (truthy_num a && truthy_str _); [ | discriminate ].
  intro H. injection H as _ <-. unfold typed. cbn [type].
  destruct (isCredit || _); auto.
Qed.

(** A property of every transaction a line can produce holds of the whole
    candidate list. *)
Lemma parse_lines_Forall tza (P : Transaction -> Prop) :
  (forall this line this' t, parseTransactionLine tza this line = (this', Some t) -> P t) ->
  forall lines this, Forall P (snd (parse_lines tza this lines)).
Proof.
  intros HP lines. induction lines as [|line rest IH]; intro this; cbn.
  - constructor.
  - destruct (parseTransactionLine tza this line) as [this1 [t|]] eqn:E;
      specialize (IH this1);
      destruct (parse_lines tza this1 rest) as [this2 txs]; cbn in *.
    + constructor; [ eapply HP; eassumption | exact IH ].
    + exact IH.
Qed.

(** A property that [with_defaults] keeps survives [cleanupTransactions]. *)
Lemma cleanupTransactions_Forall (P : Transaction -> Prop) ts :
  (forall t, P t -> P (with_defaults t)) ->
  Forall P ts -> Forall P (cleanupTransactions ts).
Proof.
  intros HP H. unfold cleanupTransactions. apply sort_Forall.
  apply Forall_map. eapply Forall_impl; [ exact HP | ].
  now do 2 apply Forall_filter_keeps.
Qed.

Lemma parseTransactionText_typed tza this text :
  Forall typed (snd (parseTransactionText tza this text)).
Proof.
  unfold parseTransactionText.
  pose proof (@parse_lines_Forall tza typed
                (fun th l th' t => @parseTransactionLine_typed tza th l th' t)
                (segment text) this) as H.
  destruct (parse_lines tza this (segment text)) as [this' txs]. cbn in *.
  apply cleanupTransactions_Forall; [ | exact H ].
  intros t Ht. exact Ht.
Qed.

Lemma typed_counts txs :
  Forall typed txs ->
  (List.length (filter (is_type expense) txs) + List.length (filter (is_type income) txs)
   = List.length txs)%nat.
Proof.
  induction 1 as [|t txs Ht H IH]; [ reflexivity | ].
  assert (E : (is_type expense t = true /\ is_type income t = false)
              \/ (is_type expense t = false /\ is_type income t = true))
    by (unfold is_type; destruct Ht as [-> | ->]; auto).
  cbn [filter].
  destruct E as [[-> ->] | [-> ->]]; cbn [List.length]; lia.
Qed.

Section Results.
Variable tza : Z.
Variables readFileSync pdfParse : str -> completion str.

(** C9.  In a successful result of [processPDF] every transaction has
    type income or expense, and the summary's debits and credits add up
    to its total. *)
Theorem successful_result_is_typed this filePath :
  let r := snd (processPDF tza readFileSync pdfParse this filePath) in
  success r = true ->
  Forall (fun t => type t = Some income \/ type t = Some expense) (transactions r)
  /\ exists s, summary r = Some s
               /\ (totalDebits s + totalCredits s = totalTransactions s)%nat
               /\ totalTransactions s = List.length (transactions r).
Proof.
  cbv zeta. unfold processPDF.
  destruct (readFileSync filePath) as [buf|m]; [ | discriminate ].
  destruct (pdfParse buf) as [text|m]; [ | discriminate ].
  pose proof (parseTransactionText_typed tza this text) as T.
  destruct (parseTransactionText tza this text) as [this' txs].
  destruct (getDateRange txs) as [range|m]; [ | discriminate ].
  intros _. cbn in *. split; [ exact T | ].
  eexists. split; [ reflexivity | ]. cbn. split; [ | reflexivity ].
  now apply typed_counts.
Qed.
End Results.

(** A readable file whose document has two transaction lines. *)
Definition statement_text : str :=
  (lit "01/15/2024 01/16/2024 COFFEE $7.25" ++ ["010"%char]
   ++ lit "02/01/2024 02/01/2024 PAYROLL DEPOSIT $2500.00 CR")%list.
Definition statement_file : str -> completion str := fun _ => Normal (lit "%PDF-1.4 ...").
Definition statement_reader : str -> completion str := fun _ => Normal statement_text.

Lemma successful_result_witness :
  let r := snd (processPDF 0 statement_file statement_reader new_processor
                  (lit "statement.pdf")) in
  success r = true
  /\ map type (transactions r) = [Some expense; Some income]
  /\ (Forall (fun t => type t = Some income \/ type t = Some expense) (transactions r)
      /\ exists s, summary r = Some s
                   /\ (totalDebits s + totalCredits s = totalTransactions s)%nat
                   /\ totalTransactions s = List.length (transactions r)).
Proof.
  cbv zeta. split; [ vm_compute; reflexivity | ].
  split; [ vm_compute; reflexivity | ].
  apply (@successful_result_is_typed 0 statement_file statement_reader new_processor
           (lit "statement.pdf")).
  vm_compute; reflexivity.
Defined.

(** ** Order of the final sequence *)

Lemma Date_local_range tza y m d t :
  Date_local tza y m d = Some t -> (- max_time <= t <= max_time)%Z.
Proof.
  unfold Date_local. destruct y, m, d; try discriminate.
  intro H. apply TimeClip_Some in H as [-> H]. exact H.
Qed.

(** Whatever [normalizeDate] returns is a date string that [new Date]
    reads back. *)
Lemma normalizeDate_parses tza ds s :
  normalizeDate tza ds = Some s -> exists v, Date_parse s = Some v.
Proof.
  unfold normalizeDate. destruct ds as [token|]; [ | discriminate ].
  cbv zeta.
  match goal with |- match ?d with _ => _ end = _ -> _ => set (dt := d) end.
  assert (R : forall t, dt = Some (Some t) -> (- max_time <= t <= max_time)%Z).
  { intro t. subst dt.
    destruct (includes token (lit "/")).
    - destruct (split "/" token) as [|p0 [|p1 [|p2 [|]]]]; try discriminate.
      intro H. injection H as H. eapply Date_local_range; eassumption.
    - destruct (includes token (lit "-")); [ | discriminate ].
      destruct (split "-" token) as [|p0 [|p1 [|p2 [|]]]]; try discriminate.
      destruct (List.length p0 =? 4)%nat; intro H; injection H as H;
        eapply Date_local_range; eassumption. }
  destruct dt as [[t|]|]; try discriminate.
  intro H. injection H as <-. rewrite iso_date_part.
  eexists. apply Date_parse_date_text. now apply R.
Qed.

Lemma extract_date_parses tza ps line s :
  extract_date tza ps line = Some s -> exists v, Date_parse s = Some v.
Proof.
  induction ps as [|p ps IH]; cbn; [ discriminate | ].
  destruct (match_global p line); [ apply normalizeDate_parses | exact IH ].
Qed.

(** The sort key of [cleanupTransactions]: the time value of [new Date(t.date)]. *)
Definition date_key (t : Transaction) : option Z := new_Date (date t).

(** The dates of [a] and [b] are valid and [a]'s is not after [b]'s. *)
Definition date_le (a b : Transaction) : Prop := key_le date_key a b.

Lemma parseTransactionLine_dated tza this line this' t :
  parseTransactionLine tza this line = (this', Some t) -> keyed date_key t.
Proof.
  unfold parseTransactionLine.
  destruct (isHeaderLine this line) as [th header].
  destruct (header || isBalanceLine line); [ discriminate | ].
  destruct (extract_amount th line) as [[a isDebit] isCredit].
  remember (extract_date tza date_patterns line) as d eqn:E.
  destruct (truthy_num a && truthy_str _); [ | discriminate ].
  intro H. injection H as _ <-. unfold keyed, date_key, new_Date. cbn [date].
  destruct d as [s|].
  - eapply extract_date_parses. symmetry. exact E.
  - now exists 0%Z.
Qed.

(** C6.  The final sequence of [parseTransactionText] is in non-decreasing
    order of date: every transaction in it has a valid date, and of any two
    the earlier in the sequence has the smaller or the same time value. *)
Theorem final_sequence_sorted_by_date tza this text :
  Forall (fun t => exists v, new_Date (date t) = Some v)
    (snd (parseTransactionText tza this text))
  /\ StronglySorted date_le (snd (parseTransactionText tza this text)).
Proof.
  unfold parseTransactionText.
  pose proof (@parse_lines_Forall tza (keyed date_key)
                (fun th l th' t => @parseTransactionLine_dated tza th l th' t)
                (segment text) this) as K.
  destruct (parse_lines tza this (segment text)) as [this' txs]. cbn [snd] in *.
  split.
  - apply (@cleanupTransactions_Forall (keyed date_key)); [ | exact K ].
    intros t Ht. exact Ht.
  - unfold cleanupTransactions, date_le.
    apply sort_StronglySorted.
    + intros x y. reflexivity.
    + apply Forall_map. eapply Forall_impl; [ | do 2 apply Forall_filter_keeps; exact K ].
      intros t Ht. exact Ht.
Qed.
(** * Further properties of the processor *)

(** ** The state of the processor *)

(** A processor as [new TransactionHistoryProcessor()] and any number of
    calls leave it: the five amount expressions, whatever their
    [lastIndex]. *)
Definition well_formed (this : Processor) : Prop :=
  map (fun re => set_lastIndex re 0) this = amount_patterns.

Lemma new_processor_well_formed : well_formed new_processor.
Proof. reflexivity. Qed.

Lemma exec_keeps_expression re s :
  set_lastIndex (fst (exec re s)) 0 = set_lastIndex re 0.
Proof.
  unfold exec.
  destruct (List.length s <? (if global re then lastIndex re else 0))%nat.
  - destruct (global re); reflexivity.
  - destruct (search _ _ _ _); destruct (global re); reflexivity.
Qed.

Lemma test_keeps_expression re s :
  set_lastIndex (fst (test re s)) 0 = set_lastIndex re 0.
Proof.
  unfold test. pose proof (exec_keeps_expression re s) as H.
  destruct (exec re s) as [re' m]. exact H.
Qed.

Lemma some_test_keeps_expressions line : forall ps,
  map (fun re => set_lastIndex re 0) (fst (some_test ps line))
  = map (fun re => set_lastIndex re 0) ps.
Proof.
  induction ps as [|p ps IH]; [ reflexivity | ].
  cbn [some_test]. pose proof (test_keeps_expression p line) as H.
  destruct (test p line) as [p' hit]. cbn [fst] in H.
  destruct hit.
  - cbn [fst map]. now rewrite H.
  - destruct (some_test ps line) as [ps' hit']. cbn [fst map] in *.
    now rewrite H, IH.
Qed.

Lemma isHeaderLine_well_formed this line :
  well_formed this -> well_formed (fst (isHeaderLine this line)).
Proof.
  unfold well_formed, isHeaderLine. intro W.
  destruct (existsb _ headerKeywords); [ | exact W ].
  pose proof (some_test_keeps_expressions line this) as H.
  destruct (some_test this line) as [this' hit]. cbn [fst] in *. now rewrite H.
Qed.

Lemma parseTransactionLine_state tza this line :
  fst (parseTransactionLine tza this line) = fst (isHeaderLine this line).
Proof.
  unfold parseTransactionLine.
  destruct (isHeaderLine this line) as [this' header]. cbn [fst].
  destruct (header || isBalanceLine line); [ reflexivity | ].
  destruct (extract_amount this' line) as [[a isDebit] isCredit].
  destruct (truthy_num a && truthy_str _); reflexivity.
Qed.

Lemma parse_lines_well_formed tza lines : forall this,
  well_formed this -> well_formed (fst (parse_lines tza this lines)).
Proof.
  induction lines as [|line rest IH]; intros this W; [ exact W | ].
  cbn [parse_lines].
  pose proof (parseTransactionLine_state tza this line) as S.
  destruct (parseTransactionLine tza this line) as [this1 t]. cbn [fst] in S.
  specialize (IH this1). destruct (parse_lines tza this1 rest) as [this2 txs].
  cbn [fst] in *. apply IH. subst this1. now apply isHeaderLine_well_formed.
Qed.

(** X1.  Whatever text it has parsed, the processor still holds the five
    amount expressions of its constructor; only [lastIndex] can differ. *)
Theorem processor_keeps_its_expressions tza this text :
  well_formed this ->
  well_formed (fst (parseTransactionText tza this text)).
Proof.
  intro W. unfold parseTransactionText.
  pose proof (parse_lines_well_formed tza (segment text) this W) as H.
  destruct (parse_lines tza this (segment text)) as [this' txs]. exact H.
Qed.

Lemma processor_keeps_witness :
  well_formed (fst (parseTransactionText 0 new_processor account_line))
  /\ map lastIndex (fst (parseTransactionText 0 new_processor account_line))
     = [39; 0; 0; 0; 0]%nat.
Proof.
  split; [ | vm_compute; reflexivity ].
  apply (processor_keeps_its_expressions 0 new_processor account_line).
  exact new_processor_well_formed.
Defined.

Lemma well_formed_global this :
  well_formed this -> Forall (fun re => global re = true) this.
Proof.
  unfold well_formed. intro W.
  assert (G : Forall (fun re => global re = true)
                (map (fun re => set_lastIndex re 0) this))
    by (rewrite W; repeat constructor).
  apply Forall_map in G. exact G.
Qed.

Lemma test_miss_resets re s re' :
  global re = true -> test re s = (re', false) -> re' = set_lastIndex re 0.
Proof.
  unfold test, exec. intros G. rewrite G.
  destruct (List.length s <? lastIndex re)%nat.
  - intro H. now injection H as <-.
  - destruct (search _ _ _ _); intro H; [ discriminate | now injection H as <- ].
Qed.

Lemma some_test_miss_resets line : forall ps ps',
  Forall (fun re => global re = true) ps ->
  some_test ps line = (ps', false) ->
  ps' = map (fun re => set_lastIndex re 0) ps.
Proof.
  induction ps as [|p ps IH]; intros ps' G H.
  - now injection H as <-.
  - inversion G as [|? ? Gp Gps]; subst. cbn [some_test] in H.
    destruct (test p line) as [p' hit] eqn:T. destruct hit; [ discriminate | ].
    destruct (some_test ps line) as [ps'' hit'] eqn:S.
    injection H as <- ->. cbn [map]. f_equal.
    + now apply test_miss_resets with (s := line).
    + now apply IH.
Qed.

(** X2.  A line taken for a header puts the processor back into the state
    of a new one. *)
Theorem header_line_resets_processor this line this' :
  well_formed this ->
  isHeaderLine this line = (this', true) ->
  this' = new_processor.
Proof.
  intros W. unfold isHeaderLine.
  destruct (existsb _ headerKeywords); [ | discriminate ].
  destruct (some_test this line) as [ps hit] eqn:S.
  intro H. injection H as <- Hit. apply negb_true_iff in Hit. subst hit.
  apply some_test_miss_resets in S; [ | now apply well_formed_global ].
  rewrite S. exact W.
Qed.

Lemma header_line_resets_witness :
  let used := fst (parseTransactionLine 0 new_processor account_line) in
  map lastIndex used = [39; 0; 0; 0; 0]%nat
  /\ fst (isHeaderLine used (lit "DATE DESCRIPTION AMOUNT BALANCE")) = new_processor.
Proof.
  cbv zeta. split; [ vm_compute; reflexivity | ].
  apply (header_line_resets_processor
           (fst (parseTransactionLine 0 new_processor account_line))
           (lit "DATE DESCRIPTION AMOUNT BALANCE")).
  - rewrite parseTransactionLine_state. apply isHeaderLine_well_formed.
    exact new_processor_well_formed.
  - vm_compute; reflexivity.
Defined.

(** ** Texts without header keywords *)

Definition has_header_keyword (line : str) : bool :=
  existsb (fun keyword => includes (toUpperCase line) keyword) headerKeywords.

Definition to_list {A : Type} (o : option A) : list A :=
  match o with Some a => [a] | None => [] end.

Lemma parseTransactionLine_no_keyword tza this line :
  has_header_keyword line = false ->
  fst (parseTransactionLine tza this line) = this.
Proof.
  intro H. rewrite parseTransactionLine_state. unfold isHeaderLine.
  unfold has_header_keyword in H. now rewrite H.
Qed.

(** X3.  When no line of a text contains a header keyword, the lines are
    parsed independently of one another: the processor comes out as it
    went in, and the candidates are those each line yields on its own. *)
Theorem lines_without_keywords_are_independent tza this lines :
  Forall (fun line => has_header_keyword line = false) lines ->
  parse_lines tza this lines
  = (this, flat_map (fun line => to_list (snd (parseTransactionLine tza this line))) lines).
Proof.
  induction 1 as [|line rest Hl Hrest IH]; [ reflexivity | ].
  cbn [parse_lines flat_map].
  pose proof (parseTransactionLine_no_keyword tza this line Hl) as S.
  destruct (parseTransactionLine tza this line) as [this1 t]. cbn [fst snd] in *.
  subst this1. rewrite IH. destruct t; reflexivity.
Qed.

Lemma lines_without_keywords_witness :
  let lines := [coffee_line; walmart_line; coffee_line] in
  parse_lines 0 new_processor lines
  = (new_processor,
     flat_map (fun line => to_list (snd (parseTransactionLine 0 new_processor line))) lines)
  /\ List.length (snd (parse_lines 0 new_processor lines)) = 3%nat.
Proof.
  cbv zeta. split; [ | vm_compute; reflexivity ].
  apply (lines_without_keywords_are_independent 0 new_processor
           [coffee_line; walmart_line; coffee_line]).
  repeat constructor.
Defined.

(** ** Lines without a digit *)

Section Consumed.
Variable R : Type.
Variable ic : bool.

(** What a match hands to its continuation is a suffix of its input. *)
Lemma rep_suffix p s : forall lo hi i (k : nat -> str -> option R) res,
  rep p lo hi i s k = Some res ->
  exists j s' w, s = (w ++ s')%list /\ k j s' = Some res
                 /\ (lo = O \/ exists c w', w = c :: w' /\ p c = true).
Proof.
  induction s as [|c s IH]; intros lo hi i k res H.
  - cbn in H. exists i, [], [].
    destruct hi as [[|h]|], lo; try discriminate; auto.
  - cbn in H.
    assert (Stop : match lo with O => k i (c :: s) | S _ => None end = Some res ->
                   exists j s' w, c :: s = (w ++ s')%list /\ k j s' = Some res
                     /\ (lo = O \/ exists c0 w', w = c0 :: w' /\ p c0 = true)).
    { destruct lo; [ | discriminate ]. intro K. exists i, (c :: s), []. auto. }
    assert (Step : forall hi', p c = true ->
                   rep p (pred lo) hi' (S i) s k = Some res ->
                   exists j s' w, c :: s = (w ++ s')%list /\ k j s' = Some res
                     /\ (lo = O \/ exists c0 w', w = c0 :: w' /\ p c0 = true)).
    { intros hi' Pc E. apply IH in E as (j & s' & w & -> & Hk & _).
      exists j, s', (c :: w). repeat split; eauto. }
    destruct hi as [[|h]|]; [ now apply Stop | | ].
    + destruct (p c) eqn:Pc; [ | now apply Stop ].
      destruct (rep p (pred lo) (option_map pred (Some (S h))) (S i) s k) eqn:E;
        [ | now apply Stop ].
      injection H as ->. eapply Step; eauto.
    + destruct (p c) eqn:Pc; [ | now apply Stop ].
      destruct (rep p (pred lo) (option_map pred None) (S i) s k) eqn:E;
        [ | now apply Stop ].
      injection H as ->. eapply Step; eauto.
Qed.

Lemma rmatch_suffix r : forall i s cap (k : nat -> str -> capture -> option R) res,
  rmatch ic r i s cap k = Some res ->
  exists j s' cap' w, s = (w ++ s')%list /\ k j s' cap' = Some res.
Proof.
  induction r as [c|p|p lo hi|r1 IH1 r2 IH2|r1 IH1 r2 IH2|r1 IH1|];
    intros i s cap k res H; cbn in H.
  - destruct s as [|x s]; [ discriminate | ].
    destruct (Ascii.eqb _ _); [ | discriminate ].
    exists (S i), s, cap, [x]. auto.
  - destruct s as [|x s]; [ discriminate | ].
    destruct (p x); [ | discriminate ].
    exists (S i), s, cap, [x]. auto.
  - apply rep_suffix in H as (j & s' & w & Hs & Hk & _). eauto 6.
  - apply IH1 in H as (j1 & s1 & c1 & w1 & -> & H).
    apply IH2 in H as (j2 & s2 & c2 & w2 & -> & H).
    exists j2, s2, c2, (w1 ++ w2)%list. rewrite <- app_assoc. auto.
  - destruct (rmatch ic r1 i s cap k) eqn:E.
    + injection H as ->. now apply IH1 in E.
    + now apply IH2 in H.
  - apply IH1 in H as (j & s' & c' & w & Hs & H). eauto 6.
  - destruct (i =? 0)%nat; [ | discriminate ]. exists i, s, cap, []. auto.
Qed.

(** [needs P r]: every match of [r] consumes a character of class [P]. *)
Inductive needs (P : ascii -> bool) : regex -> Prop :=
| needs_Cls p : (forall c, p c = true -> P c = true) -> needs P (Cls p)
| needs_Rep p lo hi :
    (forall c, p c = true -> P c = true) -> needs P (Rep p (S lo) hi)
| needs_Cat_l r1 r2 : needs P r1 -> needs P (Cat r1 r2)
| needs_Cat_r r1 r2 : needs P r2 -> needs P (Cat r1 r2)
| needs_Alt r1 r2 : needs P r1 -> needs P r2 -> needs P (Alt r1 r2)
| needs_Grp r : needs P r -> needs P (Grp r).

Lemma existsb_suffix (P : ascii -> bool) (w s : str) :
  existsb P s = true -> existsb P (w ++ s) = true.
Proof. intro H. rewrite existsb_app, H. apply orb_true_r. Qed.

Lemma needs_match P r : needs P r ->
  forall i s cap (k : nat -> str -> capture -> option R) res,
  rmatch ic r i s cap k = Some res -> existsb P s = true.
Proof.
  induction 1 as [p Hp|p lo hi Hp|r1 r2 _ IH|r1 r2 _ IH|r1 r2 _ IH1 _ IH2|r _ IH];
    intros i s cap k res H; cbn in H.
  - destruct s as [|x s]; [ discriminate | ].
    destruct (p x) eqn:Px; [ | discriminate ]. cbn. now rewrite (Hp x Px).
  - apply rep_suffix in H as (j & s' & w & -> & _ & [L | (c & w' & -> & Pc)]);
      [ discriminate | ].
    cbn. now rewrite (Hp c Pc).
  - eapply IH; eassumption.
  - apply rmatch_suffix in H as (j & s' & c' & w & -> & H).
    apply existsb_suffix. eapply IH; eassumption.
  - destruct (rmatch ic r1 i s cap k) eqn:E.
    + eapply IH1; eassumption.
    + eapply IH2; eassumption.
  - eapply IH; eassumption.
Qed.
End Consumed.

Lemma existsb_skipn (P : ascii -> bool) n : forall s : str,
  existsb P s = false -> existsb P (skipn n s) = false.
Proof.
  induction n as [|n IH]; intros [|c s] H; cbn in *; try exact H; try reflexivity.
  apply orb_false_iff in H as [_ H]. now apply IH.
Qed.

Lemma search_needs P ic r : needs P r ->
  forall s i, existsb P s = false -> search ic r i s = None.
Proof.
  intros N s. induction s as [|c s IH]; intros i H; cbn [search].
  - destruct (rmatch ic r i [] None _) as [[j cap]|] eqn:E; [ | reflexivity ].
    apply (needs_match _ ic _ _ N) in E. cbn in E. discriminate.
  - destruct (rmatch ic r i (c :: s) None _) as [[j cap]|] eqn:E.
    + apply (needs_match _ ic _ _ N) in E. congruence.
    + apply IH. cbn in H. now apply orb_false_iff in H as [_ H].
Qed.

Lemma numeral_needs_digit : needs is_digit numeral.
Proof. unfold numeral. cbn. apply needs_Grp, needs_Cat_l. unfold plus. now apply needs_Rep. Qed.

(** Each amount expression needs a digit. *)
Lemma amount_patterns_need_digit :
  Forall (fun re => needs is_digit (pattern re)) amount_patterns.
Proof.
  pose proof numeral_needs_digit as N. unfold amount_patterns.
  apply Forall_cons; [ cbn; now apply needs_Cat_r | ].
  apply Forall_cons; [ cbn; now apply needs_Cat_l | ].
  apply Forall_cons; [ cbn; now apply needs_Cat_l | ].
  apply Forall_cons; [ cbn; now apply needs_Cat_r, needs_Cat_r | ].
  apply Forall_cons; [ cbn; now apply needs_Cat_l | ].
  apply Forall_nil.
Qed.

Lemma well_formed_need_digit this :
  well_formed this -> Forall (fun re => needs is_digit (pattern re)) this.
Proof.
  unfold well_formed. intro W. pose proof amount_patterns_need_digit as N.
  rewrite <- W in N. rewrite Forall_forall in *. intros re Hre.
  apply (N (set_lastIndex re 0)).
  exact (in_map (fun re => set_lastIndex re 0) this re Hre).
Qed.

Lemma matchAll_no_digit re line :
  needs is_digit (pattern re) -> existsb is_digit line = false -> matchAll re line = [].
Proof.
  intros N H. unfold matchAll. cbn [all_matches].
  destruct (List.length line <? lastIndex re)%nat; [ reflexivity | ].
  rewrite (search_needs _ _ _ N); [ reflexivity | now apply existsb_skipn ].
Qed.

Lemma extract_amount_no_digit line : forall this,
  Forall (fun re => needs is_digit (pattern re)) this ->
  existsb is_digit line = false ->
  extract_amount this line = (None, false, false).
Proof.
  induction this as [|re this IH]; intros N H; [ reflexivity | ].
  inversion N as [|? ? Nre Nthis]; subst. cbn [extract_amount].
  rewrite matchAll_no_digit by assumption. cbn [rev]. now apply IH.
Qed.

(** X4.  A line without a digit yields no transaction, whatever the
    [lastIndex] values of the processor. *)
Theorem line_without_digit_yields_nothing tza this line :
  well_formed this ->
  existsb is_digit line = false ->
  snd (parseTransactionLine tza this line) = None.
Proof.
  intros W H. unfold parseTransactionLine.
  pose proof (isHeaderLine_well_formed this line W) as W'.
  destruct (isHeaderLine this line) as [this' header]. cbn [fst] in W'.
  destruct (header || isBalanceLine line); [ reflexivity | ].
  rewrite extract_amount_no_digit by (auto using well_formed_need_digit).
  reflexivity.
Qed.

Lemma line_without_digit_witness :
  let used := fst (parseTransactionLine 0 new_processor account_line) in
  snd (parseTransactionLine 0 used (lit "DATE DESCRIPTION AMOUNT BALANCE")) = None
  /\ snd (parseTransactionLine 0 used (lit "Thank you for banking with us")) = None.
Proof.
  cbv zeta.
  assert (W : well_formed (fst (parseTransactionLine 0 new_processor account_line))).
  { rewrite parseTransactionLine_state. apply isHeaderLine_well_formed.
    exact new_processor_well_formed. }
  split; apply line_without_digit_yields_nothing; try exact W; reflexivity.
Defined.

(** ** What a parsed transaction carries *)

(** The categories [suggestCategory] can return. *)
Definition vocabulary : list str :=
  (map snd categoryMappings ++ [lit "Transfer"; lit "Other"])%list.

Lemma first_category_in upperDesc : forall entries cat,
  first_category upperDesc entries = Some cat -> In cat (map snd entries).
Proof.
  induction entries as [|[keyword c] rest IH]; intros cat H; [ discriminate | ].
  cbn in H |- *. destruct (includes upperDesc keyword).
  - injection H as <-. now left.
  - right. now apply IH.
Qed.

Lemma suggestCategory_listed description :
  In (suggestCategory description) vocabulary.
Proof.
  unfold suggestCategory, vocabulary.
  destruct (first_category _ categoryMappings) as [cat|] eqn:E.
  - apply in_or_app. left. eapply first_category_in; eassumption.
  - apply in_or_app. right. destruct (_ || _); cbn; auto.
Qed.

Lemma suggestCategory_not_empty description : suggestCategory description <> [].
Proof.
  pose proof (suggestCategory_listed description) as V.
  intro E. rewrite E in V. vm_compute in V.
  repeat (destruct V as [V | V]; [ discriminate V | ]). exact V.
Qed.

(** X5.  Every description has a category, one of the fixed vocabulary (the
    categories of the keyword table, "Transfer" and "Other"), and never the
    empty text. *)
Theorem suggestCategory_in_vocabulary description :
  In (suggestCategory description) vocabulary
  /\ suggestCategory description <> [].
Proof.
  split.
  - apply suggestCategory_listed.
  - apply suggestCategory_not_empty.
Qed.

(** The second of the date tokens that the first matching date pattern
    finds in a line, when there are two. *)
Definition second_date_token (line : str) (token : str) : Prop :=
  exists datePattern dateMatch,
    In datePattern date_patterns
    /\ match_global datePattern line = Some dateMatch
    /\ nth_error dateMatch 1 = Some token.

Lemma extract_date_second_token tza line : forall ps s,
  extract_date tza ps line = Some s ->
  exists datePattern dateMatch token,
    In datePattern ps
    /\ match_global datePattern line = Some dateMatch
    /\ nth_error dateMatch 1 = Some token
    /\ normalizeDate tza (Some token) = Some s.
Proof.
  induction ps as [|p ps IH]; intros s H; [ discriminate | ].
  cbn [extract_date] in H. destruct (match_global p line) as [ms|] eqn:M.
  - destruct (nth_error ms 1) as [token|] eqn:N; [ | discriminate ].
    exists p, ms, token. repeat split; auto. now left.
  - apply IH in H as (q & ms & token & Hq & H). exists q, ms, token.
    split; [ now right | exact H ].
Qed.

Lemma parseTransactionLine_fields tza this line this' t :
  parseTransactionLine tza this line = (this', Some t) ->
  raw_line t = line
  /\ date t = extract_date tza date_patterns line
  /\ (exists x, amount t = Some x /\ truthy x = true)
  /\ (exists d, description t = Some d /\ d <> []
                /\ category t = Some (suggestCategory d)
                /\ type t = Some (if snd (extract_amount (fst (isHeaderLine this line)) line)
                                     || isIncomeDescription d
                                  then income else expense)).
Proof.
  unfold parseTransactionLine.
  destruct (isHeaderLine this line) as [th header]. cbn [fst].
  destruct (header || isBalanceLine line); [ discriminate | ].
  destruct (extract_amount th line) as [[a isDebit] isCredit]. cbn [snd].
  remember (extract_date tza date_patterns line) as dt eqn:D.
  destruct (extract_description line dt a) as [[|c d]|]; cbn [truthy_str];
    rewrite ?andb_false_r; try discriminate.
  destruct a as [x|]; cbn [truthy_num andb]; [ | discriminate ].
  destruct (truthy x) eqn:T; [ | discriminate ].
  intro H. injection H as _ <-. cbn.
  repeat split; eauto. exists (c :: d). repeat split. discriminate.
Qed.



(** A candidate as the parser builds it, with what the validator adds. *)
Definition complete (tza : Z) (t : Transaction) : Prop :=
  (exists token, second_date_token (raw_line t) token
                 /\ date t = normalizeDate tza (Some token) /\ date t <> None)
  /\ (exists x, amount t = Some x /\ gt0 x = true)
  /\ (exists d, description t = Some d /\ d <> []
                /\ category t = Some (suggestCategory d))
  /\ (type t = Some income \/ type t = Some expense).

Lemma cleanupTransactions_subset ts t :
  In t (cleanupTransactions ts) ->
  exists u, In u ts /\ has_fields u = true /\ positive_amount u = true
            /\ t = with_defaults u.
Proof.
  intro H.
  assert (F : Forall (fun t => exists u, In u ts /\ has_fields u = true
                                /\ positive_amount u = true /\ t = with_defaults u)
                (cleanupTransactions ts)).
  { unfold cleanupTransactions. apply sort_Forall. apply Forall_forall.
    intros x Hx. apply in_map_iff in Hx as [u [<- Hu]].
    apply filter_In in Hu as [Hu Hp]. apply filter_In in Hu as [Hu Hf].
    exists u. auto. }
  rewrite Forall_forall in F. now apply F.
Qed.

Lemma parse_lines_In tza lines : forall this t,
  In t (snd (parse_lines tza this lines)) ->
  exists this0 line this1, In line lines
                           /\ parseTransactionLine tza this0 line = (this1, Some t).
Proof.
  induction lines as [|line rest IH]; intros this t H; [ destruct H | ].
  cbn [parse_lines] in H.
  destruct (parseTransactionLine tza this line) as [this1 o] eqn:E.
  specialize (IH this1 t).
  destruct (parse_lines tza this1 rest) as [this2 txs]. cbn [snd] in *.
  assert (R : In t txs -> exists this0 line0 this3, In line0 (line :: rest)
              /\ parseTransactionLine tza this0 line0 = (this3, Some t)).
  { intro I. apply IH in I as (a & l & b & Hl & Hp). exists a, l, b. split; [ now right | exact Hp ]. }
  destruct o as [u|]; [ | now apply R ].
  destruct H as [<- | H]; [ | now apply R ].
  exists this, line, this1. split; [ now left | exact E ].
Qed.

Lemma final_transaction_complete tza this text t :
  In t (snd (parseTransactionText tza this text)) ->
  In (raw_line t) (segment text) /\ complete tza t.
Proof.
  unfold parseTransactionText.
  pose proof (parse_lines_In tza (segment text) this) as P.
  destruct (parse_lines tza this (segment text)) as [this' txs]. cbn [snd] in *.
  intro Ht.
  apply cleanupTransactions_subset in Ht as (u & Hu & Hf & Hp & ->).
  apply P in Hu as (this0 & line & this1 & Hl & Hu).
  pose proof (parseTransactionLine_typed _ _ _ _ _ Hu) as Ty.
  apply parseTransactionLine_fields in Hu as (Hr & Hd & (x & Hx & Tx) & (d & Hdesc & Hne & Hc & _)).
  assert (W : with_defaults u = u).
  { destruct u as [ud udesc ua uty uc ur]. cbn in *. subst udesc uc.
    unfold with_defaults. cbn. f_equal.
    - destruct d; [ congruence | reflexivity ].
    - unfold or_default. cbn.
      destruct (suggestCategory d) eqn:S; [ | reflexivity ].
      pose proof (suggestCategory_not_empty d). congruence. }
  rewrite W. split; [ now rewrite Hr | ].
  unfold complete. rewrite Hr. repeat split.
  - unfold has_fields in Hf. apply andb_prop in Hf as [Hf _]. apply andb_prop in Hf as [Hf _].
    destruct (date u) as [s|] eqn:Ds; [ | discriminate ].
    symmetry in Hd.
    apply extract_date_second_token in Hd as (p & ms & token & Hp' & Hm & Hn & Hs).
    exists token. split; [ now exists p, ms | ].
    split; [ now symmetry | discriminate ].
  - unfold positive_amount in Hp. rewrite Hx in Hp. now exists x.
  - exists d. auto.
  - exact Ty.
Qed.


(** ** The date range of the summary *)

Lemma normalizeDate_canonical tza ds s :
  normalizeDate tza ds = Some s ->
  exists t, (- max_time <= t <= max_time)%Z /\ s = date_text t.
Proof.
  unfold normalizeDate. destruct ds as [token|]; [ | discriminate ].
  cbv zeta.
  match goal with |- match ?d with _ => _ end = _ -> _ => set (dt := d) end.
  assert (R : forall t, dt = Some (Some t) -> (- max_time <= t <= max_time)%Z).
  { intro t. subst dt.
    destruct (includes token (lit "/")).
    - destruct (split "/" token) as [|p0 [|p1 [|p2 [|]]]]; try discriminate.
      intro H. injection H as H. eapply Date_local_range; eassumption.
    - destruct (includes token (lit "-")); [ | discriminate ].
      destruct (split "-" token) as [|p0 [|p1 [|p2 [|]]]]; try discriminate.
      destruct (List.length p0 =? 4)%nat; intro H; injection H as H;
        eapply Date_local_range; eassumption. }
  destruct dt as [[t|]|]; try discriminate.
  intro H. injection H as <-. rewrite iso_date_part.
  exists t. split; [ now apply R | reflexivity ].
Qed.

Lemma date_text_of_day t : date_text (t / msPerDay * msPerDay) = date_text t.
Proof. unfold date_text. now rewrite Z.div_mul by (unfold msPerDay; lia). Qed.

(** The date of a final transaction is read by [new Date] and printed back
    by [toISOString] as the same text. *)
Lemma complete_date_round_trip tza t :
  complete tza t ->
  exists s v, date t = Some s /\ new_Date (date t) = Some v
              /\ iso_day (Some v) = Normal s.
Proof.
  intros ((token & _ & Hd & Hn) & _).
  destruct (date t) as [s|] eqn:D; [ | congruence ].
  symmetry in Hd. apply normalizeDate_canonical in Hd as (t0 & R & ->).
  exists (date_text t0), (t0 / msPerDay * msPerDay)%Z.
  split; [ reflexivity | ]. cbn [new_Date].
  split; [ now apply Date_parse_date_text | ].
  cbn [iso_day]. now rewrite iso_date_part, date_text_of_day.
Qed.

Lemma sorted_dates_in_order l :
  StronglySorted date_le l ->
  Sorted (in_order minus) (map (fun t => new_Date (date t)) l).
Proof.
  induction 1 as [|a l Hs IH Ha]; cbn [map]; constructor; [ exact IH | ].
  destruct l as [|b l]; cbn [map]; constructor.
  inversion Ha as [|? ? (x & y & Hx & Hy & Hxy) _]; subst.
  unfold in_order, after, minus. unfold date_key in Hx, Hy. rewrite Hx, Hy.
  apply Z.ltb_ge. lia.
Qed.

Lemma last_map (A B : Type) (f : A -> B) (l : list A) (a : A) (b : B) :
  l <> [] -> last (map f l) b = f (last l a).
Proof.
  induction l as [|x l IH]; intro N; [ congruence | ].
  destruct l as [|y l]; [ reflexivity | ].
  change (last (map f (y :: l)) b = f (last (y :: l) a)). apply IH. discriminate.
Qed.

Lemma last_in (A : Type) (l : list A) (a : A) : l <> [] -> In (last l a) l.
Proof.
  induction l as [|x l IH]; intro N; [ congruence | ].
  destruct l as [|y l]; [ now left | ].
  right. change (In (last (y :: l) a) (y :: l)). apply IH. discriminate.
Qed.

Lemma parseTransactionText_in_date_order tza this text :
  StronglySorted date_le (snd (parseTransactionText tza this text)).
Proof.
  unfold parseTransactionText.
  pose proof (parse_lines_Forall tza (keyed date_key)
                (fun th l th' t => parseTransactionLine_dated tza th l th' t)
                (segment text) this) as K.
  destruct (parse_lines tza this (segment text)) as [this' txs]. cbn [snd] in *.
  unfold cleanupTransactions, date_le.
  apply sort_StronglySorted.
  - intros x y. reflexivity.
  - apply Forall_map. eapply Forall_impl; [ | do 2 apply Forall_filter_keeps; exact K ].
    intros t Ht. exact Ht.
Qed.

Lemma getDateRange_of_sorted tza first rest :
  Forall (complete tza) (first :: rest) ->
  StronglySorted date_le (first :: rest) ->
  exists s e,
    date first = Some s /\ date (last rest first) = Some e
    /\ getDateRange (first :: rest)
       = Normal (Some {| range_start := s; range_end := e |}).
Proof.
  intros C S.
  assert (Cf : complete tza first) by (now inversion C).
  assert (Cl : complete tza (last (first :: rest) first)).
  { rewrite Forall_forall in C. apply C. apply last_in. discriminate. }
  apply complete_date_round_trip in Cf as (s & v & Ds & Vs & Is).
  apply complete_date_round_trip in Cl as (e & w & De & Ve & Ie).
  exists s, e. split; [ exact Ds | ]. split.
  { destruct rest; exact De. }
  unfold getDateRange.
  rewrite (sort_fixes_sorted (sorted_dates_in_order _ S)).
  rewrite (last_map _ _ (fun t => new_Date (date t)) (first :: rest) first None)
    by discriminate.
  cbn [map hd]. now rewrite Vs, Is, Ve, Ie.
Qed.

Lemma final_sequence_complete tza this text :
  Forall (complete tza) (snd (parseTransactionText tza this text)).
Proof.
  apply Forall_forall. intros t Ht.
  now apply (final_transaction_complete tza this text t).
Qed.

(** X8.  The date range of a final sequence never fails; it is absent for
    the empty sequence and otherwise runs from the date of the first
    transaction to the date of the last. *)
Theorem date_range_of_final_sequence tza this text :
  match snd (parseTransactionText tza this text) with
  | [] => getDateRange [] = Normal None
  | first :: rest =>
      exists s e,
        date first = Some s /\ date (last rest first) = Some e
        /\ getDateRange (first :: rest)
           = Normal (Some {| range_start := s; range_end := e |})
  end.
Proof.
  pose proof (final_sequence_complete tza this text) as C.
  pose proof (parseTransactionText_in_date_order tza this text) as S.
  destruct (snd (parseTransactionText tza this text)) as [|first rest].
  - reflexivity.
  - now apply getDateRange_of_sorted with (tza := tza).
Qed.

(** ** Success of [processPDF] *)

Section Readable.
Variable tza : Z.
Variables readFileSync pdfParse : str -> completion str.

(** X9.  When the file is read and decoded, [processPDF] succeeds: it returns
    the final sequence of the text, the text itself, and a summary with the
    number of transactions; no later step can fail. *)
Theorem processPDF_succeeds_when_readable this filePath dataBuffer text :
  readFileSync filePath = Normal dataBuffer ->
  pdfParse dataBuffer = Normal text ->
  let r := snd (processPDF tza readFileSync pdfParse this filePath) in
  success r = true
  /\ error r = None
  /\ transactions r = snd (parseTransactionText tza this text)
  /\ rawText r = Some text
  /\ option_map totalTransactions (summary r)
     = Some (List.length (snd (parseTransactionText tza this text)))
  /\ fst (processPDF tza readFileSync pdfParse this filePath)
     = fst (parseTransactionText tza this text).
Proof.
  intros Hr Hp. cbv zeta. unfold processPDF. rewrite Hr, Hp.
  pose proof (final_sequence_complete tza this text) as C.
  pose proof (parseTransactionText_in_date_order tza this text) as S.
  destruct (parseTransactionText tza this text) as [this' txs]. cbn [snd fst] in *.
  destruct txs as [|first rest].
  - cbn. repeat split.
  - destruct (getDateRange_of_sorted tza first rest C S) as (s & e & _ & _ & ->).
    cbn. repeat split.
Qed.
End Readable.

Lemma processPDF_succeeds_witness :
  let r := snd (processPDF 0 statement_file statement_reader new_processor
                  (lit "statement.pdf")) in
  success r = true
  /\ error r = None
  /\ transactions r = snd (parseTransactionText 0 new_processor statement_text)
  /\ rawText r = Some statement_text
  /\ option_map totalTransactions (summary r)
     = Some (List.length (snd (parseTransactionText 0 new_processor statement_text)))
  /\ fst (processPDF 0 statement_file statement_reader new_processor (lit "statement.pdf"))
     = fst (parseTransactionText 0 new_processor statement_text).
Proof.
  apply (processPDF_succeeds_when_readable 0 statement_file statement_reader
           new_processor (lit "statement.pdf") (lit "%PDF-1.4 ...") statement_text);
    reflexivity.
Defined.

(** ** What the validator keeps, and in which order *)

Section SortKeeps.
Variable A : Type.
Variable cmp : A -> A -> option Z.

Lemma insert_Permutation x l : Permutation (insert cmp x l) (x :: l).
Proof.
  induction l as [|y l IH]; cbn; [ reflexivity | ].
  destruct (after cmp x y); [ | reflexivity ].
  rewrite IH. apply perm_swap.
Qed.

Lemma sort_Permutation l : Permutation (sort cmp l) l.
Proof.
  induction l as [|x l IH]; [ reflexivity | ].
  rewrite sort_cons, insert_Permutation. now constructor.
Qed.

Variable key : A -> option Z.
Hypothesis cmp_key :
  forall x y, cmp x y = match key x, key y with
                        | Some a, Some b => Some (a - b)%Z
                        | _, _ => None
                        end.



End SortKeeps.

(** The candidates that pass the two filters, with the defaults filled in. *)
Definition valid_candidates (ts : list Transaction) : list Transaction :=
  map with_defaults (filter positive_amount (filter has_fields ts)).

(** X10.  [cleanupTransactions] returns the valid candidates, each once:
    nothing valid is lost, nothing is added or repeated. *)
Theorem cleanupTransactions_permutes_valid ts :
  Permutation (cleanupTransactions ts) (valid_candidates ts).
Proof. unfold cleanupTransactions, valid_candidates. apply sort_Permutation. Qed.


Lemma sort_length (A : Type) (cmp : A -> A -> option Z) (l : list A) :
  List.length (sort cmp l) = List.length l.
Proof.
  induction l as [|x l IH]; [ reflexivity | ].
  rewrite sort_cons, insert_length. cbn. now rewrite IH.
Qed.

Lemma parse_lines_length tza lines : forall this,
  (List.length (snd (parse_lines tza this lines)) <= List.length lines)%nat.
Proof.
  induction lines as [|line rest IH]; intro this; [ reflexivity | ].
  cbn [parse_lines].
  destruct (parseTransactionLine tza this line) as [this1 o]. specialize (IH this1).
  destruct (parse_lines tza this1 rest) as [this2 txs]. cbn [snd] in *.
  destruct o; cbn [List.length]; lia.
Qed.

(** X12.  A line yields at most one transaction: the final sequence is no
    longer than the number of non-blank lines of the text. *)
Theorem at_most_one_transaction_per_line tza this text :
  (List.length (snd (parseTransactionText tza this text))
   <= List.length (segment text))%nat.
Proof.
  unfold parseTransactionText.
  pose proof (parse_lines_length tza (segment text) this) as L.
  destruct (parse_lines tza this (segment text)) as [this' txs]. cbn [snd] in *.
  unfold cleanupTransactions.
  rewrite sort_length, length_map.
  pose proof (filter_length_le positive_amount (filter has_fields txs)).
  pose proof (filter_length_le has_fields txs). lia.
Qed.

(** ** Segmentation *)

Lemma split_pieces (P : ascii -> bool) c : forall s : str,
  forallb P s = true -> Forall (fun w => forallb P w = true) (split c s).
Proof.
  induction s as [|x s IH]; intro H; cbn [split].
  - repeat constructor.
  - cbn in H. apply andb_prop in H as [Hx Hs]. specialize (IH Hs).
    destruct (Ascii.eqb x c).
    + constructor; [ reflexivity | exact IH ].
    + destruct (split c s) as [|w ws]; [ repeat constructor; cbn; now rewrite Hx | ].
      inversion IH; subst. constructor; [ cbn; now rewrite Hx | assumption ].
Qed.

Lemma split_without_separator c : forall s : str,
  Forall (fun w => forallb (fun x => negb (Ascii.eqb x c)) w = true) (split c s).
Proof.
  induction s as [|x s IH]; cbn [split].
  - repeat constructor.
  - destruct (Ascii.eqb x c) eqn:E.
    + constructor; [ reflexivity | exact IH ].
    + destruct (split c s) as [|w ws]; [ repeat constructor; cbn; now rewrite E | ].
      inversion IH; subst. constructor; [ cbn; now rewrite E | assumption ].
Qed.

Lemma trimStart_blank s : forallb is_space s = true -> trimStart s = [].
Proof.
  induction s as [|c s IH]; [ reflexivity | ].
  cbn. intro H. apply andb_prop in H as [-> H]. now apply IH.
Qed.

Lemma trimStart_suffix s : exists w, s = (w ++ trimStart s)%list.
Proof.
  induction s as [|c s [w IH]]; [ now exists [] | ].
  cbn. destruct (is_space c); [ | now exists [] ].
  exists (c :: w). cbn. now rewrite <- IH.
Qed.

Lemma trimStart_head s c r : trimStart s = c :: r -> is_space c = false.
Proof.
  induction s as [|x s IH]; [ discriminate | ].
  cbn. destruct (is_space x) eqn:E; [ exact IH | ].
  intro H. now injection H as <- _.
Qed.

Lemma trimEnd_prefix s : exists w, s = (trimEnd s ++ w)%list.
Proof.
  unfold trimEnd. destruct (trimStart_suffix (rev s)) as [w H].
  exists (rev w). rewrite <- rev_app_distr, <- H. now rewrite rev_involutive.
Qed.

Lemma trimEnd_last s r c : trimEnd s = (r ++ [c])%list -> is_space c = false.
Proof.
  unfold trimEnd. intro H. apply (f_equal (@rev ascii)) in H.
  rewrite rev_involutive, rev_app_distr in H. cbn in H.
  now apply trimStart_head in H.
Qed.

Lemma forallb_app_r (P : ascii -> bool) (a b : str) :
  forallb P (a ++ b) = true -> forallb P b = true.
Proof. rewrite forallb_app. intro H. now apply andb_prop in H as [_ H]. Qed.

Lemma forallb_app_l (P : ascii -> bool) (a b : str) :
  forallb P (a ++ b) = true -> forallb P a = true.
Proof. rewrite forallb_app. intro H. now apply andb_prop in H as [H _]. Qed.

Lemma trim_keeps (P : ascii -> bool) s : forallb P s = true -> forallb P (trim s) = true.
Proof.
  intro H. unfold trim.
  destruct (trimStart_suffix s) as [w Hw]. rewrite Hw in H. apply forallb_app_r in H.
  destruct (trimEnd_prefix (trimStart s)) as [v Hv]. rewrite Hv in H.
  now apply forallb_app_l in H.
Qed.

Lemma trim_blank s : forallb is_space s = true -> trim s = [].
Proof. intro H. unfold trim. now rewrite trimStart_blank. Qed.

Lemma trim_edges s :
  match trim s with
  | [] => True
  | c :: r => is_space c = false /\ is_space (last (c :: r) c) = false
  end.
Proof.
  destruct (trim s) as [|c r] eqn:T; [ exact I | ].
  unfold trim in T. split.
  - destruct (trimEnd_prefix (trimStart s)) as [w H]. rewrite T in H.
    cbn in H. now apply trimStart_head in H.
  - destruct (exists_last (l := c :: r) ltac:(discriminate)) as (r' & z & E).
    rewrite E, last_last. rewrite E in T. now apply trimEnd_last in T.
Qed.

Definition newline : ascii := "010"%char.

(** X13.  The lines handed to [parseTransactionLine] are not empty, hold no
    line break, and neither begin nor end with white space. *)
Theorem segment_lines_are_trimmed text :
  Forall (fun line =>
            exists c r, line = c :: r
                        /\ forallb (fun x => negb (Ascii.eqb x newline)) line = true
                        /\ is_space c = false
                        /\ is_space (last line c) = false)
    (segment text).
Proof.
  unfold segment. apply Forall_forall. intros line H.
  apply filter_In in H as [H N]. apply in_map_iff in H as (w & <- & Hw).
  pose proof (split_without_separator newline text) as S.
  rewrite Forall_forall in S. specialize (S w Hw).
  pose proof (trim_keeps _ w S) as K. pose proof (trim_edges w) as E.
  destruct (trim w) as [|c r]; [ discriminate | ].
  exists c, r. destruct E. auto.
Qed.

(** X14.  A text of white space only (the empty text too) yields no
    transaction and leaves the processor as it is. *)
Theorem blank_text_yields_nothing tza this text :
  forallb is_space text = true ->
  parseTransactionText tza this text = (this, []).
Proof.
  intro H. unfold parseTransactionText.
  assert (S : segment text = []).
  { unfold segment. pose proof (split_pieces is_space newline text H) as P.
    fold newline. induction P as [|w ws Hw _ IH]; [ reflexivity | ].
    cbn [map filter]. rewrite (trim_blank w Hw). exact IH. }
  rewrite S. reflexivity.
Qed.

Lemma blank_text_witness :
  let used := fst (parseTransactionLine 0 new_processor account_line) in
  parseTransactionText 0 used [] = (used, [])
  /\ parseTransactionText 0 used (lit "   " ++ [newline; newline] ++ lit "  ")%list
     = (used, []).
Proof.
  cbv zeta. split; apply blank_text_yields_nothing; reflexivity.
Defined.

(** ** Rows for the database *)

(** The object [prepareForDatabase] builds for a transaction. *)
Record Row := {
  user_id : Z;
  row_type : option Direction;
  row_amount : option Number;
  row_category : option str;
  row_description : option str;
  row_date : option str;
  receipt_path : option str
}.

Definition prepareForDatabase (transactions : list Transaction) (userId : Z) : list Row :=
  map (fun t => {| user_id := userId;
                   row_type := type t;
                   row_amount := amount t;
                   row_category := category t;
                   row_description := description t;
                   row_date := date t;
                   receipt_path := None |})
    transactions.

(** The constraints of the [transactions] table that [initializeDatabase]
    creates: type is income or expense, and amount, category and date are
    not null. *)
Definition insertable (row : Row) : Prop :=
  (row_type row = Some income \/ row_type row = Some expense)
  /\ row_amount row <> None
  /\ row_category row <> None
  /\ row_date row <> None.

(** X15.  The rows prepared from a final sequence are one per transaction, in
    its order, all under the given user and without a receipt, and each
    meets the constraints of the [transactions] table. *)
Theorem prepared_rows_are_insertable tza this text userId :
  let txs := snd (parseTransactionText tza this text) in
  let rows := prepareForDatabase txs userId in
  map row_date rows = map date txs
  /\ Forall (fun row => user_id row = userId /\ receipt_path row = None
                        /\ insertable row) rows.
Proof.
  cbv zeta. split.
  - unfold prepareForDatabase. rewrite map_map. reflexivity.
  - unfold prepareForDatabase. apply Forall_map.
    eapply Forall_impl; [ | apply (final_sequence_complete tza this text) ].
    intros t ((token & _ & _ & Hd) & (x & Hx & _) & (d & _ & _ & Hc) & Ty).
    cbn. unfold insertable. cbn. repeat split; try assumption; congruence.
Qed.

(** ** Date tokens *)

Section Tokens.
Local Open Scope Z_scope.
Local Open Scope list_scope.

Lemma digit_val_range c : is_digit c = true -> 0 <= digit_val c <= 9.
Proof.
  unfold is_digit, digit_val. intro H. apply andb_prop in H as [A B].
  apply Nat.leb_le in A, B. lia.
Qed.

Lemma digits_value_bound s :
  forallb is_digit s = true -> 0 <= digits_value s < 10 ^ Z.of_nat (List.length s).
Proof.
  induction s as [|c s IH] using rev_ind; intro H; [ cbn; lia | ].
  rewrite forallb_app in H. apply andb_prop in H as [Hs Hc].
  cbn in Hc. rewrite andb_true_r in Hc.
  rewrite digits_value_snoc, length_app, Nat2Z.inj_add, Z.pow_add_r by lia.
  specialize (IH Hs). pose proof (digit_val_range c Hc). cbn [List.length].
  change (10 ^ Z.of_nat 1) with 10. lia.
Qed.

Lemma split_digits sep a :
  is_digit sep = false -> forallb is_digit a = true -> split sep a = [a].
Proof.
  intros Hsep. induction a as [|x a IH]; intro H; [ reflexivity | ].
  cbn in H. apply andb_prop in H as [Hx Ha]. cbn [split].
  rewrite (digit_not x sep Hx Hsep), (IH Ha). reflexivity.
Qed.

Lemma split_digit_part sep a rest :
  is_digit sep = false -> forallb is_digit a = true ->
  split sep (a ++ sep :: rest) = a :: split sep rest.
Proof.
  intros Hsep. induction a as [|x a IH]; intro H.
  - cbn. now rewrite Ascii.eqb_refl.
  - cbn in H. apply andb_prop in H as [Hx Ha]. cbn [app split].
    rewrite (digit_not x sep Hx Hsep), (IH Ha). reflexivity.
Qed.

Lemma includes_char s c : includes s [c] = existsb (Ascii.eqb c) s.
Proof.
  unfold includes, indexOf. generalize 0%nat.
  induction s as [|x s IH]; intro i; [ reflexivity | ].
  cbn. destruct (Ascii.eqb c x); cbn; [ reflexivity | apply IH ].
Qed.

Lemma digits_exclude c s :
  is_digit c = false -> forallb is_digit s = true -> existsb (Ascii.eqb c) s = false.
Proof.
  intro Hc. induction s as [|x s IH]; intro H; [ reflexivity | ].
  cbn in *. apply andb_prop in H as [Hx Hs].
  rewrite Ascii.eqb_sym, (digit_not x c Hx Hc). now apply IH.
Qed.

Lemma ToNumber_digits s : forallb is_digit s = true -> ToNumber s = Some (digits_value s).
Proof. unfold ToNumber. now intros ->. Qed.

Lemma days_from_civil_bound y m d :
  -1 <= y <= 11000 -> 1 <= m <= 12 -> 0 <= d <= 10000 ->
  -730000 <= days_from_civil y m d <= 3310000.
Proof.
  intros Hy Hm Hd. unfold days_from_civil.
  destruct (m <=? 2) eqn:E1, (2 <? m) eqn:E2;
    Z.to_euclidean_division_equations; lia.
Qed.

Lemma Date_local_small tza y m d :
  - msPerDay <= tza <= msPerDay ->
  0 <= y < 10000 -> -1 <= m < 10000 -> 0 <= d < 10000 ->
  exists t, Date_local tza (Some y) (Some m) (Some d) = Some t.
Proof.
  intros Ht Hy Hm Hd. unfold Date_local, TimeClip, MakeDay.
  set (yr := if (0 <=? y) && (y <=? 99) then 1900 + y else y).
  assert (Hyr : 100 <= yr < 10000).
  { subst yr. destruct ((0 <=? y) && (y <=? 99)) eqn:E.
    - apply andb_prop in E as [A B]. apply Z.leb_le in A, B. lia.
    - apply andb_false_iff in E as [E | E]; [ apply Z.leb_gt in E | apply Z.leb_gt in E ]; lia. }
  assert (Hq : -1 <= m / 12 <= 833).
  { Z.to_euclidean_division_equations; lia. }
  pose proof (Z.mod_pos_bound m 12 ltac:(lia)) as Hr.
  pose proof (days_from_civil_bound (yr + m / 12) (m mod 12 + 1) 1
                ltac:(lia) ltac:(lia) ltac:(lia)) as B.
  match goal with |- exists t, (if ?c then _ else _) = _ => replace c with true end.
  - eexists. reflexivity.
  - symmetry. apply Z.leb_le. unfold msPerDay in *. lia.
Qed.

(** X16.  A token of three groups of at most four digits, separated by
    slashes or by dashes, is never rejected: [normalizeDate] returns a date
    for it, whatever the numbers are. *)
Theorem normalizeDate_accepts_every_token tza sep p0 p1 p2 :
  - msPerDay <= tza <= msPerDay ->
  sep = "/"%char \/ sep = "-"%char ->
  Forall (fun p => forallb is_digit p = true /\ (List.length p <= 4)%nat) [p0; p1; p2] ->
  exists s, normalizeDate tza (Some (p0 ++ sep :: p1 ++ sep :: p2)%list) = Some s.
Proof.
  intros Ht Hsep Hp.
  inversion Hp as [|? ? [D0 L0] Hp1]; subst.
  inversion Hp1 as [|? ? [D1 L1] Hp2]; subst.
  inversion Hp2 as [|? ? [D2 L2] _]; subst.
  assert (B : forall p, forallb is_digit p = true -> (List.length p <= 4)%nat ->
                        0 <= digits_value p < 10000).
  { intros p D L. pose proof (digits_value_bound p D) as V.
    assert (10 ^ Z.of_nat (List.length p) <= 10 ^ 4) by (apply Z.pow_le_mono_r; lia).
    lia. }
  pose proof (B p0 D0 L0). pose proof (B p1 D1 L1). pose proof (B p2 D2 L2).
  assert (S : is_digit sep = false) by (destruct Hsep; subst; reflexivity).
  assert (Sp : split sep (p0 ++ sep :: p1 ++ sep :: p2) = [p0; p1; p2]).
  { rewrite !split_digit_part by assumption. now rewrite split_digits. }
  assert (In1 : includes (p0 ++ sep :: p1 ++ sep :: p2) [sep] = true).
  { rewrite includes_char, existsb_app. cbn. rewrite Ascii.eqb_refl.
    apply orb_true_r. }
  unfold normalizeDate. cbv zeta. cbn [lit list_ascii_of_string].
  destruct Hsep; subst sep.
  - rewrite In1, Sp, !ToNumber_digits by assumption. cbn [option_map].
    destruct (Date_local_small tza (digits_value p2) (digits_value p0 - 1)
                (digits_value p1)) as [t ->]; try lia.
    eexists. reflexivity.
  - replace (includes (p0 ++ "-"%char :: p1 ++ "-"%char :: p2) ["/"%char]) with false.
    2:{ symmetry. rewrite includes_char, existsb_app. cbn [existsb].
        rewrite existsb_app. cbn [existsb].
        rewrite !digits_exclude by (assumption || reflexivity). reflexivity. }
    rewrite In1, Sp, !ToNumber_digits by assumption. cbn [option_map].
    destruct (List.length p0 =? 4)%nat.
    + destruct (Date_local_small tza (digits_value p0) (digits_value p1 - 1)
                  (digits_value p2)) as [t ->]; try lia.
      eexists. reflexivity.
    + destruct (Date_local_small tza (digits_value p2) (digits_value p1 - 1)
                  (digits_value p0)) as [t ->]; try lia.
      eexists. reflexivity.
Qed.

Lemma date_text_of_day_shift z tza :
  - msPerDay < tza <= msPerDay ->
  date_text (z * msPerDay - tza)
  = date_text ((if 0 <? tza then z - 1 else z) * msPerDay).
Proof.
  intro H. unfold date_text. rewrite Z.div_mul by (unfold msPerDay; lia).
  replace ((z * msPerDay - tza) / msPerDay) with (if 0 <? tza then z - 1 else z);
    [ reflexivity | ].
  unfold msPerDay in *.
  destruct (0 <? tza) eqn:E; [ apply Z.ltb_lt in E | apply Z.ltb_ge in E ];
    apply Z.div_unique with (r := (if 0 <? tza then 86400000 - tza else - tza));
    rewrite ?E; destruct (0 <? tza) eqn:E'; try lia;
    try (apply Z.ltb_lt in E'; lia); try (apply Z.ltb_ge in E'; lia).
Qed.

(** X17.  Given back one of its own dates (year 0100 to 9999), [normalizeDate]
    returns the same date on a host at or west of UTC, and the day before on
    a host east of UTC, where local midnight falls on the previous UTC
    day. *)
Theorem normalizeDate_of_canonical_date tza z :
  - msPerDay < tza <= msPerDay ->
  100 <= fst (fst (civil_from_days z)) <= 9999 ->
  normalizeDate tza (Some (date_text (z * msPerDay)))
  = Some (date_text ((if 0 <? tza then z - 1 else z) * msPerDay)).
Proof.
  intros Ht Hy.
  rewrite <- date_text_of_day_shift by exact Ht.
  unfold date_text at 1. rewrite Z.div_mul by (unfold msPerDay; lia).
  pose proof (civil_roundtrip z) as R.
  destruct (civil_from_days z) as [[y m] d]. cbn [fst] in Hy.
  destruct R as (Hm & Hd & R).
  unfold year_text.
  replace ((0 <=? y) && (y <=? 9999)) with true
    by (symmetry; apply andb_true_intro; split; apply Z.leb_le; lia).
  cbn [lit list_ascii_of_string app].
  pose proof (pad_digits 4 y) as D4. pose proof (pad_digits 2 m) as Dm.
  pose proof (pad_digits 2 d) as Dd.
  unfold normalizeDate. cbv zeta. cbn [lit list_ascii_of_string].
  replace (includes (pad 4 y ++ "-"%char :: pad 2 m ++ "-"%char :: pad 2 d) ["/"%char])
    with false.
  2:{ symmetry. rewrite includes_char, existsb_app. cbn [existsb].
      rewrite existsb_app. cbn [existsb].
      rewrite !digits_exclude by (assumption || reflexivity). reflexivity. }
  replace (includes (pad 4 y ++ "-"%char :: pad 2 m ++ "-"%char :: pad 2 d) ["-"%char])
    with true.
  2:{ symmetry. rewrite includes_char, existsb_app. cbn. apply orb_true_r. }
  rewrite !split_digit_part, split_digits by (assumption || reflexivity).
  rewrite pad_length. cbn [Nat.eqb].
  rewrite !ToNumber_digits, !digits_value_pad by (assumption || (cbn; lia)).
  cbn [option_map]. unfold Date_local.
  replace ((0 <=? y) && (y <=? 99)) with false
    by (symmetry; apply andb_false_iff; right; apply Z.leb_gt; lia).
  rewrite MakeDay_civil, R by exact Hm.
  assert (Bz : -730000 <= z <= 3310000).
  { rewrite <- R. unfold days_from_civil.
    destruct (m <=? 2) eqn:E1, (2 <? m) eqn:E2;
      Z.to_euclidean_division_equations; lia. }
  unfold TimeClip.
  replace (Z.abs (z * msPerDay - tza) <=? 8640000000000000) with true
    by (symmetry; apply Z.leb_le; unfold msPerDay in *; lia).
  now rewrite iso_date_part.
Qed.
End Tokens.

Lemma normalizeDate_accepts_witness :
  exists s, normalizeDate IST (Some (lit "99/99/9999")) = Some s.
Proof.
  apply (normalizeDate_accepts_every_token IST "/"%char (lit "99") (lit "99") (lit "9999")).
  - unfold msPerDay, IST. lia.
  - now left.
  - repeat constructor.
Defined.

Lemma normalizeDate_of_canonical_witness :
  normalizeDate 0 (Some (lit "2024-01-15")) = Some (lit "2024-01-15")
  /\ normalizeDate IST (Some (lit "2024-01-15")) = Some (lit "2024-01-14").
Proof.
  split.
  - apply (normalizeDate_of_canonical_date 0 19737);
      [ unfold msPerDay; lia | vm_compute; split; discriminate ].
  - apply (normalizeDate_of_canonical_date IST 19737);
      [ unfold msPerDay, IST; lia | vm_compute; split; discriminate ].
Defined.

(** ** The three date formats *)

Section Formats.
Local Open Scope Z_scope.
Local Open Scope list_scope.

Lemma Date_local_of_civil tza z y m d :
  - msPerDay < tza <= msPerDay ->
  civil_from_days z = (y, m, d) ->
  100 <= y <= 9999 ->
  Date_local tza (Some y) (Some (m - 1)) (Some d) = Some (z * msPerDay - tza).
Proof.
  intros Ht C Hy. pose proof (civil_roundtrip z) as R. rewrite C in R.
  destruct R as (Hm & Hd & R). unfold Date_local.
  replace ((0 <=? y) && (y <=? 99)) with false
    by (symmetry; apply andb_false_iff; right; apply Z.leb_gt; lia).
  rewrite MakeDay_civil, R by exact Hm.
  assert (Bz : -730000 <= z <= 3310000).
  { rewrite <- R. apply days_from_civil_bound; lia. }
  unfold TimeClip.
  replace (Z.abs (z * msPerDay - tza) <=? 8640000000000000) with true
    by (symmetry; apply Z.leb_le; unfold msPerDay in *; lia).
  reflexivity.
Qed.

(** X18.  How the three token formats are read.  For the groups of digits
    [pm], [pd], [py] that spell the month, day and year of a day (year 100
    to 9999): the slash token is month/day/year; a dash token whose first
    group has four digits is year-month-day, any other dash token is
    day-month-year.  The result is that day on a host at or west of UTC and
    the day before on a host east of it. *)
Theorem normalizeDate_reads_three_formats tza z pm pd py :
  - msPerDay < tza <= msPerDay ->
  Forall (fun p => forallb is_digit p = true) [pm; pd; py] ->
  civil_from_days z = (digits_value py, digits_value pm, digits_value pd) ->
  100 <= digits_value py <= 9999 ->
  let day := Some (date_text ((if 0 <? tza then z - 1 else z) * msPerDay)) in
  normalizeDate tza (Some (pm ++ "/"%char :: pd ++ "/"%char :: py)) = day
  /\ (List.length py = 4%nat ->
      normalizeDate tza (Some (py ++ "-"%char :: pm ++ "-"%char :: pd)) = day)
  /\ (List.length pd <> 4%nat ->
      normalizeDate tza (Some (pd ++ "-"%char :: pm ++ "-"%char :: py)) = day).
Proof.
  intros Ht Hp C Hy. cbv zeta.
  inversion Hp as [|? ? Dm Hp1]; subst. inversion Hp1 as [|? ? Dd Hp2]; subst.
  inversion Hp2 as [|? ? Dy _]; subst.
  pose proof (Date_local_of_civil tza z _ _ _ Ht C Hy) as L.
  rewrite <- date_text_of_day_shift by exact Ht.
  assert (Slash : forall a b c, forallb is_digit a = true -> forallb is_digit b = true ->
                  forallb is_digit c = true ->
                  includes (a ++ "/"%char :: b ++ "/"%char :: c) ["/"%char] = true
                  /\ split "/" (a ++ "/"%char :: b ++ "/"%char :: c) = [a; b; c]).
  { intros a b c Da Db Dc. split.
    - rewrite includes_char, existsb_app. cbn. apply orb_true_r.
    - rewrite !split_digit_part, split_digits by (assumption || reflexivity).
      reflexivity. }
  assert (Dash : forall a b c, forallb is_digit a = true -> forallb is_digit b = true ->
                 forallb is_digit c = true ->
                 includes (a ++ "-"%char :: b ++ "-"%char :: c) ["/"%char] = false
                 /\ includes (a ++ "-"%char :: b ++ "-"%char :: c) ["-"%char] = true
                 /\ split "-" (a ++ "-"%char :: b ++ "-"%char :: c) = [a; b; c]).
  { intros a b c Da Db Dc. repeat split.
    - rewrite includes_char, existsb_app. cbn [existsb].
      rewrite existsb_app. cbn [existsb].
      rewrite !digits_exclude by (assumption || reflexivity). reflexivity.
    - rewrite includes_char, existsb_app. cbn. apply orb_true_r.
    - rewrite !split_digit_part, split_digits by (assumption || reflexivity).
      reflexivity. }
  unfold normalizeDate. cbv zeta. cbn [lit list_ascii_of_string].
  split; [ | split ].
  - destruct (Slash pm pd py Dm Dd Dy) as [-> ->].
    rewrite !ToNumber_digits by assumption. cbn [option_map].
    rewrite L. now rewrite iso_date_part.
  - intro Len. destruct (Dash py pm pd Dy Dm Dd) as (-> & -> & ->).
    rewrite Len. cbn [Nat.eqb].
    rewrite !ToNumber_digits by assumption. cbn [option_map].
    rewrite L. now rewrite iso_date_part.
  - intro Len. destruct (Dash pd pm py Dd Dm Dy) as (-> & -> & ->).
    replace (List.length pd =? 4)%nat with false by (symmetry; now apply Nat.eqb_neq).
    rewrite !ToNumber_digits by assumption. cbn [option_map].
    rewrite L. now rewrite iso_date_part.
Qed.
End Formats.

Lemma normalizeDate_formats_witness :
  normalizeDate 0 (Some (lit "1/15/2024")) = Some (lit "2024-01-15")
  /\ normalizeDate 0 (Some (lit "2024-1-15")) = Some (lit "2024-01-15")
  /\ normalizeDate 0 (Some (lit "15-1-2024")) = Some (lit "2024-01-15").
Proof.
  destruct (normalizeDate_reads_three_formats 0 19737 (lit "1") (lit "15") (lit "2024"))
    as (A & B & C).
  - unfold msPerDay. lia.
  - repeat constructor.
  - reflexivity.
  - vm_compute. split; discriminate.
  - split; [ exact A | ]. split; [ apply B; reflexivity | apply C; discriminate ].
Defined.

(** ** Keywords and direction *)







Lemma extract_amount_debit line : forall ps,
  includes line (lit "DR") || includes line (lit "-") = true ->
  snd (extract_amount ps line) = false.
Proof.
  intros ps H. induction ps as [|re ps IH]; [ reflexivity | ].
  cbn [extract_amount]. destruct (rev (matchAll re line)); [ exact IH | ].
  apply orb_prop in H. 
  destruct (includes line (lit "DR")); [ reflexivity | ].
  destruct H as [H | H]; [ discriminate | ]. rewrite H. reflexivity.
Qed.

(** X20.  In a line that contains "DR" or a minus sign, a "CR" or "DEPOSIT"
    in the line decides nothing: the direction is income when the
    description has an income keyword and expense otherwise. *)
Theorem debit_cue_leaves_direction_to_description tza this line this' t :
  includes line (lit "DR") || includes line (lit "-") = true ->
  parseTransactionLine tza this line = (this', Some t) ->
  exists d, description t = Some d
            /\ type t = Some (if isIncomeDescription d then income else expense).
Proof.
  intros H P. apply parseTransactionLine_fields in P as (_ & _ & _ & (d & Hd & _ & _ & Ty)).
  exists d. split; [ exact Hd | ].
  rewrite (extract_amount_debit line _ H) in Ty. exact Ty.
Qed.

Lemma debit_cue_witness :
  let line := lit "ADJUSTMENT-FEE REVERSAL $20.00 CR" in
  exists t, snd (parseTransactionLine 0 new_processor line) = Some t
            /\ type t = Some expense
            /\ exists d, description t = Some d
                         /\ type t = Some (if isIncomeDescription d then income else expense).
Proof.
  cbv zeta. eexists. split; [ vm_compute; reflexivity | ].
  split; [ reflexivity | ].
  eapply (debit_cue_leaves_direction_to_description 0 new_processor
            (lit "ADJUSTMENT-FEE REVERSAL $20.00 CR"));
    vm_compute; reflexivity.
Defined.

(** ** The cleaned description *)

Section Replace.
Variable ic : bool.
Variable p : ascii -> bool.

Let K : nat -> str -> option (nat * capture) := fun j _ => Some (j, None).




End Replace.







